(** * web-watcher: a shallow embedding of [watcher.py]

    The program fetches one page, flattens it to text, cuts out the text
    between two marker strings, normalises its whitespace, hashes it and
    compares the hash with the one persisted by the previous run.

    Python strings are sequences of Unicode code points; they are modelled
    as [list N].  Exceptions are values of [exn], and a computation that
    may raise returns [exn + A]. *)

From Stdlib Require Import ZArith NArith List Bool Lia.
From Stdlib Require Import Strings.String Strings.Ascii.
From Stdlib Require Import Numbers.DecimalString.
From stdpp Require Import base option list gmap.

Local Open Scope N_scope.

(** ** Python strings *)

Abbreviation str := (list N).

(** An ASCII literal as a Python string. *)
Fixpoint py (s : string) : str :=
  match s with
  | EmptyString => []
  | String a r => N_of_ascii a :: py r
  end.

Definition NL : N := 10.
Definition CR : N := 13.
Definition TAB : N := 9.
Definition SPACE : N := 32.

(** [str.isspace] on one code point: the characters [str.strip()] removes. *)
Definition isspace (c : N) : bool :=
  ((9 <=? c) && (c <=? 13)) || ((28 <=? c) && (c <=? 32))
  || (c =? 133) || (c =? 160) || (c =? 5760)
  || ((8192 <=? c) && (c <=? 8202))
  || (c =? 8232) || (c =? 8233) || (c =? 8239) || (c =? 8287)
  || (c =? 12288).

Fixpoint lstrip (s : str) : str :=
  match s with
  | [] => []
  | c :: r => if isspace c then lstrip r else s
  end.

Definition rstrip (s : str) : str := rev (lstrip (rev s)).

(** [s.strip()] *)
Definition strip (s : str) : str := rstrip (lstrip s).

(** [s.startswith(p)] *)
Fixpoint startswith (p s : str) : bool :=
  match p, s with
  | [], _ => true
  | _ :: _, [] => false
  | a :: p', b :: s' => (a =? b) && startswith p' s'
  end.

(** [s.find(sub)]: the lowest index at which [sub] occurs in [s]. *)
Fixpoint find (sub s : str) : option nat :=
  if startswith sub s then Some 0%nat
  else match s with
       | [] => None
       | _ :: r => S <$> find sub r
       end.

(** [sub in s] *)
Definition contains (sub s : str) : bool :=
  match find sub s with Some _ => true | None => false end.

(** [s[i:j]] for [0 <= i], [0 <= j]. *)
Definition slice (s : str) (i j : nat) : str := take (j - i) (drop i s).

(** ** Exceptions *)

Inductive exn : Type :=
| RuntimeError (msg : str)
| ValueError (msg : str)
| UnicodeEncodeError (msg : str)
| RequestException (msg : str)
| HTTPError (msg : str)
| OSError (msg : str).

(** [str(e)] *)
Definition exn_str (e : exn) : str :=
  match e with
  | RuntimeError m | ValueError m | UnicodeEncodeError m
  | RequestException m | HTTPError m | OSError m => m
  end.

(** [s.index(sub, start)]: like [find] from [start], raising when absent. *)
Definition index_from (sub s : str) (start : nat) : exn + nat :=
  if (start <=? length s)%nat then
    match find sub (drop start s) with
    | Some i => inr (start + i)%nat
    | None => inl (ValueError (py "substring not found"))
    end
  else inl (ValueError (py "substring not found")).

(** [s.index(sub)] *)
Definition index (sub s : str) : exn + nat := index_from sub s 0.

(** ** The two regular-expression substitutions

    [re.sub(pattern, repl, s)] scans [s] from the left; at each position it
    tries the pattern, on a match emits [repl] and resumes after the match,
    otherwise copies one character.  Both patterns of the program match at
    least one character.  A matcher returns the length of the match at the
    head of its argument; [re_sub] carries the number of characters of the
    current match still to be skipped. *)

Fixpoint re_sub_from (match_len : str -> option nat) (repl : str)
    (skip : nat) (s : str) : str :=
  match s with
  | [] => []
  | c :: r =>
      match skip with
      | S k => re_sub_from match_len repl k r
      | O =>
          match match_len s with
          | Some (S n) => repl ++ re_sub_from match_len repl n r
          | _ => c :: re_sub_from match_len repl 0 r
          end
      end
  end.

Definition re_sub (match_len : str -> option nat) (repl s : str) : str :=
  re_sub_from match_len repl 0 s.

Definition is_hspace (c : N) : bool := (c =? SPACE) || (c =? TAB).

(** Length of the longest prefix whose characters satisfy [p] (a greedy
    [p*]). *)
Fixpoint span_len (p : N -> bool) (s : str) : nat :=
  match s with
  | c :: r => if p c then S (span_len p r) else 0%nat
  | [] => 0%nat
  end.

(** The pattern [[ \t]+\n]: a greedy run of one or more spaces and tabs,
    then a line feed.  Backtracking to a shorter run cannot help, since the
    character after a shorter run is a space or a tab. *)
Definition match_hspace_nl (s : str) : option nat :=
  let k := span_len is_hspace s in
  match k, drop k s with
  | S _, c :: _ => if c =? NL then Some (S k) else None
  | _, _ => None
  end.

Definition is_nl (c : N) : bool := c =? NL.

(** The pattern [\n{3,}]: a greedy run of three or more line feeds. *)
Definition match_nl3 (s : str) : option nat :=
  let k := span_len is_nl s in
  if (3 <=? k)%nat then Some k else None.

(** ** Markers and extraction *)

Definition START_MARKER : str := py "Current social events".
Definition END_MARKER : str := py "Past events".

Section Extractor.

(** [BeautifulSoup(html, "html.parser").get_text("\n", strip=True)]: the
    flattening of markup to text is done by an external library and is a
    parameter of the development. *)
Variable get_text : str -> str.

Definition extract_current_social_events (html : str) : exn + str :=
  let full_text := get_text html in
  if negb (contains START_MARKER full_text)
     || negb (contains END_MARKER full_text)
  then
    inl (RuntimeError
           (py "Could not find markers. Needed '" ++ START_MARKER
               ++ py "' and '" ++ END_MARKER ++ py "'."))
  else
    match index START_MARKER full_text with
    | inl e => inl e
    | inr i =>
        let start := (i + length START_MARKER)%nat in
        match index_from END_MARKER full_text start with
        | inl e => inl e
        | inr end_ =>
            let block := strip (slice full_text start end_) in
            let block := re_sub match_hspace_nl [NL] block in
            let block := strip (re_sub match_nl3 [NL; NL] block) in
            inr block
        end
    end.

End Extractor.

(** Markup without tags or character references and without surrounding
    white space is a single text node, which the flattening returns
    stripped: the flattener used for closed examples. *)
Definition get_text_plain (html : str) : str := strip html.

(** ** UTF-8 and SHA-256

    [hashlib] and the codec are library code; they are modelled after
    their standards so that the digest of a concrete block can be
    evaluated.  Bytes and 32-bit words are numbers in [N]. *)

Abbreviation bytes := (list N).

Definition dec (n : nat) : str := py (NilEmpty.string_of_uint (Nat.to_uint n)).

Definition hex_digit (d : N) : N := if d <? 10 then 48 + d else 87 + d.

(** Two lowercase hexadecimal digits of a byte. *)
Definition hex_byte (b : N) : str := [hex_digit (b / 16); hex_digit (b mod 16)].

Definition is_surrogate (c : N) : bool := (0xD800 <=? c) && (c <=? 0xDFFF).

Definition utf8_char (c : N) : bytes :=
  if c <? 0x80 then [c]
  else if c <? 0x800 then [0xC0 + c / 64; 0x80 + c mod 64]
  else if c <? 0x10000 then
    [0xE0 + c / 4096; 0x80 + (c / 64) mod 64; 0x80 + c mod 64]
  else
    [0xF0 + c / 262144; 0x80 + (c / 4096) mod 64;
     0x80 + (c / 64) mod 64; 0x80 + c mod 64].

(** [str(e)] of the error the strict UTF-8 encoder raises on the run of
    [len] surrogates that starts with [c] at index [pos]. *)
Definition surrogate_msg (pos len : nat) (c : N) : str :=
  match len with
  | 1%nat =>
      py "'utf-8' codec can't encode character '\u"
        ++ hex_byte (c / 256) ++ hex_byte (c mod 256)
        ++ py "' in position " ++ dec pos ++ py ": surrogates not allowed"
  | _ =>
      py "'utf-8' codec can't encode characters in position "
        ++ dec pos ++ py "-" ++ dec (pos + len - 1)
        ++ py ": surrogates not allowed"
  end.

Fixpoint encode_utf8_from (pos : nat) (s : str) : exn + bytes :=
  match s with
  | [] => inr []
  | c :: r =>
      if is_surrogate c then
        inl (UnicodeEncodeError
               (surrogate_msg pos (span_len is_surrogate s) c))
      else
        match encode_utf8_from (S pos) r with
        | inl e => inl e
        | inr b => inr (utf8_char c ++ b)
        end
  end.

(** [s.encode("utf-8")] *)
Definition encode_utf8 (s : str) : exn + bytes := encode_utf8_from 0 s.

Module SHA256.

Definition add32 (a b : N) : N := (a + b) mod 0x100000000.
Definition rotr (n x : N) : N :=
  N.lor (N.shiftr x n) (N.shiftl x (32 - n) mod 0x100000000).
Definition not32 (x : N) : N := N.lxor x 0xFFFFFFFF.
Definition xor3 (a b c : N) : N := N.lxor (N.lxor a b) c.

Definition Ch (x y z : N) : N := N.lxor (N.land x y) (N.land (not32 x) z).
Definition Maj (x y z : N) : N :=
  xor3 (N.land x y) (N.land x z) (N.land y z).
Definition Sigma0 (x : N) : N := xor3 (rotr 2 x) (rotr 13 x) (rotr 22 x).
Definition Sigma1 (x : N) : N := xor3 (rotr 6 x) (rotr 11 x) (rotr 25 x).
Definition sigma0 (x : N) : N := xor3 (rotr 7 x) (rotr 18 x) (N.shiftr x 3).
Definition sigma1 (x : N) : N :=
  xor3 (rotr 17 x) (rotr 19 x) (N.shiftr x 10).

(** The constants are defined as in the standard: the first 32 bits of
    the fractional parts of the cube roots (round constants) and of the
    square roots (initial hash value) of the first primes. *)
Definition is_prime (n : N) : bool :=
  forallb (fun d => negb (n mod d =? 0))
          (map N.of_nat (seq 2 (N.to_nat n - 2))).

Definition primes : list N :=
  List.filter is_prime (map N.of_nat (seq 2 310)).

(** The largest [x] below [2 ^ bits] with [x ^ e <= n], bit by bit. *)
Fixpoint root_from (e n : N) (bits : nat) (x : N) : N :=
  match bits with
  | O => x
  | S b =>
      let y := x + 2 ^ N.of_nat b in
      root_from e n b (if y ^ e <=? n then y else x)
  end.

Definition fraction_bits (e p : N) : N :=
  root_from e (p * 2 ^ (32 * e)) 40 0 mod 0x100000000.

Definition K : list N := map (fraction_bits 3) (take 64 primes).

Definition H0 : list N := map (fraction_bits 2) (take 8 primes).

(** Big-endian bytes of a number, [n] of them. *)
Fixpoint be_bytes (n : nat) (x : N) : bytes :=
  match n with
  | O => []
  | S k => be_bytes k (x / 256) ++ [x mod 256]
  end.

Definition be_word (bs : bytes) : N :=
  fold_left (fun acc b => acc * 256 + b) bs 0.

(** The message, a 1 bit, zero bits up to 56 modulo 64 bytes, and the
    length in bits on 8 bytes. *)
Definition pad (msg : bytes) : bytes :=
  let l := length msg in
  let z := ((64 - (l + 9) mod 64) mod 64)%nat in
  msg ++ [0x80] ++ repeat 0 z ++ be_bytes 8 (8 * N.of_nat l).

(** The words of one 64-byte block. *)
Fixpoint words (n : nat) (bs : bytes) : list N :=
  match n with
  | O => []
  | S k => be_word (take 4 bs) :: words k (drop 4 bs)
  end.

(** The message schedule, latest word first. *)
Fixpoint schedule (n : nat) (w : list N) : list N :=
  match n with
  | O => w
  | S k =>
      let x :=
        add32 (add32 (sigma1 (nth 1 w 0)) (nth 6 w 0))
              (add32 (sigma0 (nth 14 w 0)) (nth 15 w 0)) in
      schedule k (x :: w)
  end.

Definition round (st : list N) (kw : N * N) : list N :=
  match st with
  | [a; b; c; d; e; f; g; h] =>
      let t1 :=
        add32 (add32 (add32 h (Sigma1 e)) (add32 (Ch e f g) (fst kw)))
              (snd kw) in
      let t2 := add32 (Sigma0 a) (Maj a b c) in
      [add32 t1 t2; a; b; c; add32 d t1; e; f; g]
  | _ => st
  end.

Definition compress (h : list N) (block : bytes) : list N :=
  let w := rev (schedule 48 (rev (words 16 block))) in
  let st := fold_left round (combine K w) h in
  map (fun p => add32 (fst p) (snd p)) (combine h st).

Fixpoint blocks (n : nat) (h : list N) (bs : bytes) : list N :=
  match n with
  | O => h
  | S k => blocks k (compress h (take 64 bs)) (drop 64 bs)
  end.

(** The 32 bytes of the digest. *)
Definition digest (msg : bytes) : bytes :=
  let p := pad msg in
  flat_map (be_bytes 4) (blocks (length p / 64) H0 p).

End SHA256.

(** [hashlib.sha256(data).hexdigest()] *)
Definition hexdigest (data : bytes) : str :=
  flat_map hex_byte (SHA256.digest data).

Definition sha256 (s : str) : exn + str :=
  match encode_utf8 s with
  | inl e => inl e
  | inr data => inr (hexdigest data)
  end.

(** ** The environment

    A run acts on the network, the file system, the process environment
    and standard output.  The [World] holds what the program can observe
    and change, the answers of the outside (the HTTP response, which
    operations fail) and the trace of the operations performed. *)

Record Response : Type := mkResponse {
  status_code : N;
  reason : str;
  url : str;
  text : str
}.

Inductive io_op : Type := OpRead | OpWrite | OpAppend.

Inductive event : Type :=
| EvMkdir (path : str)
| EvGet (url : str)
| EvExists (path : str)
| EvRead (path : str)
| EvWrite (path content : str)
| EvAppend (path content : str).

Record World : Type := mkWorld {
  (** what [requests.get] does for a URL, the timeout and the headers
      being fixed: raise, or return a response *)
  http : str -> exn + Response;
  (** the exception [STATE_DIR.mkdir(exist_ok=True)] raises, if any *)
  mkdir_error : option exn;
  (** the exception opening a path for an operation raises, if any *)
  io_error : io_op -> str -> option exn;
  (** [os.environ.get("GITHUB_OUTPUT")] *)
  GITHUB_OUTPUT : option str;
  (** the text files, by path *)
  fs : gmap str str;
  (** the lines printed so far *)
  stdout : list str;
  (** the operations performed so far, oldest first *)
  trace : list event
}.

Definition set_fs (f : gmap str str) (w : World) : World :=
  mkWorld (http w) (mkdir_error w) (io_error w) (GITHUB_OUTPUT w)
          f (stdout w) (trace w).

Definition add_event (ev : event) (w : World) : World :=
  mkWorld (http w) (mkdir_error w) (io_error w) (GITHUB_OUTPUT w)
          (fs w) (stdout w) (trace w ++ [ev]).

Definition add_line (line : str) (w : World) : World :=
  mkWorld (http w) (mkdir_error w) (io_error w) (GITHUB_OUTPUT w)
          (fs w) (stdout w ++ [line]) (trace w).

(** ** Computations that act on the world and may raise *)

Definition M (A : Type) : Type := World -> (exn + A) * World.

Definition ret {A} (a : A) : M A := fun w => (inr a, w).

Definition bind {A B} (c : M A) (k : A -> M B) : M B :=
  fun w =>
    match c w with
    | (inl e, w') => (inl e, w')
    | (inr a, w') => k a w'
    end.

Definition raise {A} (e : exn) : M A := fun w => (inl e, w).

(** A pure computation that may raise. *)
Definition lift {A} (r : exn + A) : M A := fun w => (r, w).

Declare Scope io_scope.
Delimit Scope io_scope with io.
Notation "x <- c ;; k" := (bind c (fun x => k))
  (at level 100, c at next level, right associativity) : io_scope.
Notation "c ;; k" := (bind c (fun _ => k))
  (at level 100, right associativity) : io_scope.
Local Open Scope io_scope.

(** [print(line)] *)
Definition print (line : str) : M unit := fun w => (inr tt, add_line line w).

(** ** Network *)

Definition requests_get (u : str) : M Response :=
  fun w => (http w u, add_event (EvGet u) w).

(** [Response.raise_for_status] *)
Definition raise_for_status (r : Response) : M unit :=
  let describe kind :=
    HTTPError (dec (N.to_nat (status_code r)) ++ kind ++ reason r
                 ++ py " for url: " ++ url r) in
  if (400 <=? status_code r) && (status_code r <? 500) then
    raise (describe (py " Client Error: "))
  else if (500 <=? status_code r) && (status_code r <? 600) then
    raise (describe (py " Server Error: "))
  else ret tt.

Definition fetch_html (u : str) : M str :=
  r <- requests_get u ;;
  raise_for_status r ;;
  ret (text r).

(** ** Files *)

(** Reading in text mode turns every [\r\n] and every lone [\r] into
    [\n]. *)
Fixpoint universal_newlines (s : str) : str :=
  match s with
  | [] => []
  | c :: r =>
      if c =? CR then
        match r with
        | d :: r' =>
            if d =? NL then NL :: universal_newlines r'
            else NL :: universal_newlines r
        | [] => [NL]
        end
      else c :: universal_newlines r
  end.

(** [path.exists()] *)
Definition path_exists (p : str) : M bool :=
  fun w =>
    (inr (match fs w !! p with Some _ => true | None => false end),
     add_event (EvExists p) w).

(** [path.read_text(encoding="utf-8")] *)
Definition path_read_text (p : str) : M str :=
  fun w =>
    let w' := add_event (EvRead p) w in
    match io_error w OpRead p with
    | Some e => (inl e, w')
    | None =>
        match fs w !! p with
        | Some c => (inr (universal_newlines c), w')
        | None =>
            (inl (OSError (py "[Errno 2] No such file or directory: '"
                             ++ p ++ py "'")), w')
        end
    end.

(** [path.write_text(content, encoding="utf-8")]: opening for writing
    truncates the file; the content is encoded when it is written.  Line
    feeds are written as they are (the line separator of the platform is
    the line feed). *)
Definition path_write_text (p content : str) : M unit :=
  fun w =>
    let w' := add_event (EvWrite p content) w in
    match io_error w OpWrite p with
    | Some e => (inl e, w')
    | None =>
        match encode_utf8 content with
        | inl e => (inl e, set_fs (<[p := []]> (fs w')) w')
        | inr _ => (inr tt, set_fs (<[p := content]> (fs w')) w')
        end
    end.

(** [with open(p, "a", encoding="utf-8") as f: f.write(content)] *)
Definition append_text (p content : str) : M unit :=
  fun w =>
    let w' := add_event (EvAppend p content) w in
    match io_error w OpAppend p with
    | Some e => (inl e, w')
    | None =>
        let old := default [] (fs w' !! p) in
        match encode_utf8 content with
        | inl e => (inl e, set_fs (<[p := old]> (fs w')) w')
        | inr _ => (inr tt, set_fs (<[p := old ++ content]> (fs w')) w')
        end
    end.

(** ** The program *)

Definition URL : str :=
  py "https://uni-freiburg.de/en/studies/during-your-studies/apis/".

Definition STATE_DIR : str := py ".state".
Definition HASH_FILE : str := STATE_DIR ++ py "/current_social_events.sha256".
Definition TEXT_FILE : str := STATE_DIR ++ py "/current_social_events.txt".

Definition read_text (path : str) : M (option str) :=
  e <- path_exists path ;;
  if e then s <- path_read_text path ;; ret (Some (strip s))
  else ret None.

Definition write_text (path content : str) : M unit :=
  path_write_text path content.

Definition set_github_output (name value : str) : M unit :=
  fun w =>
    match GITHUB_OUTPUT w with
    | None | Some [] => ret tt w
    | Some out_path =>
        append_text out_path
          (name ++ py "<<__EOF__" ++ [NL] ++ value ++ [NL]
                ++ py "__EOF__" ++ [NL]) w
    end.

(** [prev != h] for [prev : str | None] *)
Definition differs (prev : option str) (h : str) : bool :=
  negb (bool_decide (prev = Some h)).

Section Program.

Variable get_text : str -> str.

Definition main : M Z :=
  html <- fetch_html URL ;;
  block <- lift (extract_current_social_events get_text html) ;;
  h <- lift (sha256 block) ;;
  prev <- read_text HASH_FILE ;;
  let changed := differs prev h in
  write_text HASH_FILE h ;;
  write_text TEXT_FILE block ;;
  set_github_output (py "changed")
    (if changed then py "true" else py "false") ;;
  set_github_output (py "url") URL ;;
  set_github_output (py "content") block ;;
  if changed then
    print (py "CHANGED: Current social events updated.") ;;
    ret 0%Z
  else
    print (py "No change.") ;;
    ret 0%Z.

(** The module as a script: the state directory is created when the
    module is loaded, outside the [try]; an exception there is reported
    by the interpreter on standard error and the status is 1.  Inside
    the [try], [sys.exit(main())] exits with the value of [main], and an
    exception is printed and the status is 1. *)
Definition script (w : World) : Z * World :=
  let w0 := add_event (EvMkdir STATE_DIR) w in
  match mkdir_error w with
  | Some _ => (1%Z, w0)
  | None =>
      match main w0 with
      | (inr code, w') => (code, w')
      | (inl e, w') => (1%Z, add_line (py "ERROR: " ++ exn_str e) w')
      end
  end.

End Program.

(** * Vocabulary of the specification *)

(** [sub] occurs in [s] at index [i]. *)
Definition occurs_at (sub s : str) (i : nat) : Prop :=
  exists a b, s = a ++ sub ++ b /\ length a = i.

Definition occurs (sub s : str) : Prop := exists i, occurs_at sub s i.

(** [i] is the index of the first occurrence of [sub] in [s]. *)
Definition first_at (sub s : str) (i : nat) : Prop :=
  occurs_at sub s i /\ forall j, occurs_at sub s j -> (i <= j)%nat.

(** [s] starts with spaces and tabs, if any, followed by a line break. *)
Fixpoint hspace_then_nl (s : str) : bool :=
  match s with
  | [] => false
  | c :: r => (c =? NL) || (is_hspace c && hspace_then_nl r)
  end.

(** The normalisation in the words of the specification: "collapse
    trailing horizontal whitespace before line breaks": a space or tab is
    dropped when only spaces and tabs separate it from the next line
    break. *)
Fixpoint spec_drop_trailing_hspace (s : str) : str :=
  match s with
  | [] => []
  | c :: r =>
      if is_hspace c && hspace_then_nl r then spec_drop_trailing_hspace r
      else c :: spec_drop_trailing_hspace r
  end.

(** "collapse runs of 3+ consecutive line breaks into exactly 2": a line
    break is dropped when at least two more follow it directly. *)
Fixpoint spec_collapse_line_breaks (s : str) : str :=
  match s with
  | [] => []
  | c :: r =>
      if (c =? NL) && startswith [NL; NL] r then spec_collapse_line_breaks r
      else c :: spec_collapse_line_breaks r
  end.

(** "trim leading/trailing whitespace of the final result" *)
Definition spec_normalize (s : str) : str :=
  strip (spec_collapse_line_breaks (spec_drop_trailing_hspace s)).

(** The two exceptions with which the extractor reports that it could not
    find its markers (the specification calls them MarkerNotFoundError):
    the explicit [RuntimeError], and the [ValueError] of [str.index]. *)
Definition marker_not_found (e : exn) : Prop :=
  e = RuntimeError
        (py "Could not find markers. Needed 'Current social events' and 'Past events'.")
  \/ e = ValueError (py "substring not found").

(** * Concrete pages *)

(** A page with an introduction, the two markers and, between them, two
    lines with trailing blanks separated by three empty lines. *)
Definition sample_page : str :=
  py "Intro Current social events" ++ [NL] ++ py "Concert  "
     ++ [NL; NL; NL; NL] ++ py "Friday " ++ [TAB; NL]
     ++ py "Past events and more".

(** A page on which the two markers are adjacent. *)
Definition adjacent_markers : str := py "Current social eventsPast events".

(** A page on which the end marker only precedes the start marker. *)
Definition reversed_markers : str := py "Past events Current social events".

(** * Stages of a run and vocabulary of the claims on [main] *)

Section Stages.

Variable get_text : str -> str.

(** [main] up to and including the comparison: it yields the block, its
    digest and the [changed] flag. *)
Definition before_writes : M (str * str * bool) :=
  html <- fetch_html URL ;;
  block <- lift (extract_current_social_events get_text html) ;;
  h <- lift (sha256 block) ;;
  prev <- read_text HASH_FILE ;;
  ret (block, h, differs prev h).

(** [main] after the writes: the outputs and the message. *)
Definition report (block : str) (changed : bool) : M Z :=
  set_github_output (py "changed")
    (if changed then py "true" else py "false") ;;
  set_github_output (py "url") URL ;;
  set_github_output (py "content") block ;;
  if changed then
    print (py "CHANGED: Current social events updated.") ;;
    ret 0%Z
  else
    print (py "No change.") ;;
    ret 0%Z.

(** [main] from the first write on. *)
Definition writes_and_report (block h : str) (changed : bool) : M Z :=
  write_text HASH_FILE h ;;
  write_text TEXT_FILE block ;;
  report block changed.

End Stages.

(** The world in which [main] starts: the module has created the state
    directory. *)
Definition loaded (w : World) : World := add_event (EvMkdir STATE_DIR) w.

(** The operations that read persisted state. *)
Definition is_state_read (ev : event) : bool :=
  match ev with
  | EvExists _ | EvRead _ => true
  | _ => false
  end.

(** The operations that change files. *)
Definition is_write (ev : event) : bool :=
  match ev with
  | EvWrite _ _ | EvAppend _ _ => true
  | _ => false
  end.

(** The file named by [GITHUB_OUTPUT], if any, is neither state file. *)
Definition sink_apart (w : World) : Prop :=
  GITHUB_OUTPUT w <> Some HASH_FILE /\ GITHUB_OUTPUT w <> Some TEXT_FILE.

(** Two worlds that differ at most in the content (or presence) of the
    text file. *)
Definition agree_but_text (w1 w2 : World) : Prop :=
  http w1 = http w2
  /\ mkdir_error w1 = mkdir_error w2
  /\ io_error w1 = io_error w2
  /\ GITHUB_OUTPUT w1 = GITHUB_OUTPUT w2
  /\ delete TEXT_FILE (fs w1) = delete TEXT_FILE (fs w2)
  /\ stdout w1 = stdout w2
  /\ trace w1 = trace w2.

(** A computation whose result and effects do not depend on the text
    file. *)
Definition noninterfering {A} (c : M A) : Prop :=
  forall w1 w2,
    agree_but_text w1 w2 ->
    fst (c w1) = fst (c w2) /\ agree_but_text (snd (c w1)) (snd (c w2)).

(** The strict encoder accepts the string. *)
Definition encodable (s : str) : Prop := exists data, encode_utf8 s = inr data.

(** A lowercase hexadecimal digit. *)
Definition hex_char (c : N) : Prop := In c (py "0123456789abcdef").

(** The block and the digest of the sample page. *)
Definition sample_block : str := py "Concert" ++ [NL; NL] ++ py "Friday".
Definition sample_digest : str :=
  py "73aaebecf26f500185542eb187773eb43a0799167ddc52be5fad31cf190fd197".

(** [c], started in a world satisfying [P], ends with a result and a world
    satisfying [Q]. *)
Definition hoare {A} (P : World -> Prop) (c : M A)
    (Q : exn + A -> World -> Prop) : Prop :=
  forall w, P w -> Q (fst (c w)) (snd (c w)).

(** [c] maintains [I], whether it returns or raises. *)
Definition stable {A} (I : World -> Prop) (c : M A) : Prop :=
  hoare I c (fun _ => I).

(** The state files hold digest [h] and block [b], and the output file is
    another file. *)
Definition state_is (h b : str) (w : World) : Prop :=
  fs w !! HASH_FILE = Some h /\ fs w !! TEXT_FILE = Some b /\ sink_apart w.

(** The trace is [t0] followed by events that satisfy [p]. *)
Definition trace_grows (t0 : list event) (p : event -> bool) (w : World) : Prop :=
  exists evs, trace w = t0 ++ evs /\ Forall (fun ev => p ev = true) evs.

Definition is_append (ev : event) : bool :=
  match ev with
  | EvAppend _ _ => true
  | _ => false
  end.

(** The exception [e] carries the message [m]: [e] was raised with [m] as
    its only argument. *)
Definition carries (e : exn) (m : str) : Prop :=
  e = RuntimeError m \/ e = ValueError m \/ e = UnicodeEncodeError m
  \/ e = RequestException m \/ e = HTTPError m \/ e = OSError m.

(** * Concrete worlds *)

(** The server answers 200 with [page], nothing fails, the output file is
    [/tmp/out], and there is no state yet. *)
Definition fresh_world (page : str) : World :=
  mkWorld (fun u => inr (mkResponse 200 (py "OK") u page))
          None (fun _ _ => None) (Some (py "/tmp/out")) ∅ [] [].

(** The world with empty logs: what a later run starts from. *)
Definition reset_log (w : World) : World :=
  mkWorld (http w) (mkdir_error w) (io_error w) (GITHUB_OUTPUT w)
          (fs w) [] [].

(** The same after one run. *)
Definition second_world (page : str) : World :=
  reset_log (snd (script get_text_plain (fresh_world page))).

(** The world after one run, with the text file edited by hand. *)
Definition tampered_world (page : str) : World :=
  set_fs (<[TEXT_FILE := py "edited by hand"]> (fs (second_world page)))
         (second_world page).

(** State left by a run on [sample_page]; the page now lacks the end
    marker. *)
Definition missing_end_world : World :=
  mkWorld (fun u => inr (mkResponse 200 (py "OK") u
                           (py "Current social events" ++ [NL] ++ py "Concert")))
          None (fun _ _ => None) None
          (fs (second_world sample_page)) [] [].

(** A world with state left by an earlier run, in which the state
    directory cannot be created any more. *)
Definition no_state_dir_world : World :=
  mkWorld (fun u => inr (mkResponse 200 (py "OK") u sample_page))
          (Some (OSError (py "[Errno 13] Permission denied: '.state'")))
          (fun _ _ => None) None
          (fs (second_world sample_page)) [] [].

(** The server answers 404. *)
Definition not_found_world : World :=
  mkWorld (fun u => inr (mkResponse 404 (py "Not Found") u []))
          None (fun _ _ => None) None
          (fs (second_world sample_page)) [] [].

(** * Vocabulary of the further properties *)

(** What the extractor does to the text between the markers (the
    statements that compute [block] from the slice). *)
Definition normalize_block (s : str) : str :=
  strip (re_sub match_nl3 [NL; NL] (re_sub match_hspace_nl [NL] (strip s))).

(** The text that [set_github_output] appends for a name and a value. *)
Definition output_record (name value : str) : str :=
  name ++ py "<<__EOF__" ++ [NL] ++ value ++ [NL] ++ py "__EOF__" ++ [NL].

Definition is_get (ev : event) : bool :=
  match ev with
  | EvGet _ => true
  | _ => false
  end.

(** No code point of the string is a surrogate. *)
Definition no_surrogate (s : str) : Prop :=
  Forall (fun c => is_surrogate c = false) s.

(** [w'] has the environment of [w]: the same answers of the network, the
    same failures and the same [GITHUB_OUTPUT]. *)
Definition same_env (w w' : World) : Prop :=
  http w' = http w /\ mkdir_error w' = mkdir_error w
  /\ io_error w' = io_error w /\ GITHUB_OUTPUT w' = GITHUB_OUTPUT w.

(** The three outputs of a run with block [b] and flag [ch]. *)
Definition run_outputs (b : str) (ch : bool) : list str :=
  [output_record (py "changed") (if ch then py "true" else py "false");
   output_record (py "url") URL;
   output_record (py "content") b].

(** A value that contains the closing delimiter on a line of its own,
    followed by what looks like another output. *)
Definition crafted_value (v name' v' : str) : str :=
  v ++ [NL] ++ py "__EOF__" ++ [NL] ++ name' ++ py "<<__EOF__" ++ [NL] ++ v'.

(** The server answers 301 without following it; nothing else fails. *)
Definition moved_world : World :=
  mkWorld (fun u => inr (mkResponse 301 (py "Moved Permanently") u
                           (py "moved")))
          None (fun _ _ => None) None ∅ [] [].

(** State left by a run on [sample_page], after which the digest file has
    been given a final line end (carriage return and line feed). *)
Definition newline_world : World :=
  set_fs (<[HASH_FILE := sample_digest ++ [CR; NL]]>
            (fs (second_world sample_page)))
         (second_world sample_page).

(** A fresh world that also holds a file of someone else. *)
Definition bystander_world : World :=
  set_fs (<[py "notes.txt" := py "keep"]> ∅) (fresh_world sample_page).

(** * Properties *)

(** ** Stripping *)

Lemma lstrip_app_space (l x : str) :
  Forall (fun c => isspace c = true) l -> lstrip (l ++ x) = lstrip x.
Proof.
  induction 1 as [|c l Hc _ IH]; simpl; [reflexivity|].
  now rewrite Hc.
Qed.

Lemma lstrip_all_space (l : str) :
  Forall (fun c => isspace c = true) l -> lstrip l = [].
Proof.
  intros H. rewrite <- (app_nil_r l). now rewrite lstrip_app_space.
Qed.

Lemma lstrip_split (s : str) :
  exists l, s = l ++ lstrip s /\ Forall (fun c => isspace c = true) l.
Proof.
  induction s as [|c r [l [Hl Hf]]]; simpl.
  - exists []. split; [reflexivity | constructor].
  - destruct (isspace c) eqn:Hc.
    + exists (c :: l). split; [simpl; congruence | now constructor].
    + exists []. split; [reflexivity | constructor].
Qed.

Lemma lstrip_head (s : str) (c : N) (r : str) :
  lstrip s = c :: r -> isspace c = false.
Proof.
  induction s as [|d s IH]; simpl; [discriminate|].
  destruct (isspace d) eqn:Hd; [exact IH|].
  intros [= <- _]. exact Hd.
Qed.

Lemma lstrip_idemp (s : str) : lstrip (lstrip s) = lstrip s.
Proof.
  destruct (lstrip s) as [|c r] eqn:E; [reflexivity|].
  simpl. now rewrite (lstrip_head _ _ _ E).
Qed.

Lemma lstrip_snoc (y : str) (c : N) :
  lstrip (y ++ [c]) =
  match lstrip y with
  | [] => if isspace c then [] else [c]
  | z => z ++ [c]
  end.
Proof.
  induction y as [|d y IH]; simpl; [reflexivity|].
  destruct (isspace d); [exact IH | reflexivity].
Qed.

(** [rstrip] read from the left: a structural characterisation. *)
Lemma rstrip_cons (c : N) (x : str) :
  rstrip (c :: x) =
  match rstrip x with
  | [] => if isspace c then [] else [c]
  | y => c :: y
  end.
Proof.
  unfold rstrip. simpl. rewrite lstrip_snoc.
  destruct (lstrip (rev x)) as [|d z]; simpl.
  - now destruct (isspace c).
  - rewrite rev_app_distr. simpl.
    destruct (rev z ++ [d]) eqn:E; [|reflexivity].
    now destruct (rev z).
Qed.

Lemma rstrip_nil : rstrip [] = [].
Proof. reflexivity. Qed.

Lemma rstrip_app_space (s t : str) :
  Forall (fun c => isspace c = true) t -> rstrip (s ++ t) = rstrip s.
Proof.
  intros H. unfold rstrip. rewrite rev_app_distr.
  rewrite lstrip_app_space; [reflexivity|].
  now apply List.Forall_rev.
Qed.

Lemma rstrip_all_space (t : str) :
  Forall (fun c => isspace c = true) t -> rstrip t = [].
Proof. intros H. now rewrite <- (app_nil_l t), rstrip_app_space. Qed.

Lemma rstrip_split (s : str) :
  exists t, s = rstrip s ++ t /\ Forall (fun c => isspace c = true) t.
Proof.
  destruct (lstrip_split (rev s)) as [l [Hl Hf]].
  exists (rev l). split.
  - unfold rstrip. rewrite <- rev_app_distr, <- Hl. now rewrite rev_involutive.
  - now apply List.Forall_rev.
Qed.

Lemma rstrip_idemp (s : str) : rstrip (rstrip s) = rstrip s.
Proof.
  unfold rstrip. rewrite rev_involutive. now rewrite lstrip_idemp.
Qed.

Lemma lstrip_rstrip (z : str) : lstrip (rstrip z) = rstrip (lstrip z).
Proof.
  induction z as [|c x IH]; [reflexivity|].
  rewrite rstrip_cons. simpl lstrip at 2.
  destruct (isspace c) eqn:Hc.
  - rewrite <- IH. destruct (rstrip x); simpl; [reflexivity|].
    now rewrite Hc.
  - rewrite rstrip_cons.
    destruct (rstrip x); simpl; now rewrite Hc.
Qed.

Lemma strip_split (s : str) :
  exists l t, s = l ++ strip s ++ t
              /\ Forall (fun c => isspace c = true) l
              /\ Forall (fun c => isspace c = true) t.
Proof.
  destruct (lstrip_split s) as [l [Hl Hfl]].
  destruct (rstrip_split (lstrip s)) as [t [Ht Hft]].
  exists l, t. unfold strip. now rewrite <- Ht.
Qed.

(** ** Filters that delete white space by looking ahead

    Both steps of the specification's normalisation delete characters
    according to what follows them, and delete only white space.  The
    results below are shared by the two. *)

Section LookaheadFilter.

Variable look : N -> str -> bool.
Variable f : str -> str.

Hypothesis f_nil : f [] = [].
Hypothesis f_cons :
  forall c r, f (c :: r) = if look c r then f r else c :: f r.
Hypothesis look_space : forall c r, look c r = true -> isspace c = true.
Hypothesis look_app :
  forall c r t,
    Forall (fun c => isspace c = true) t ->
    look c (r ++ t) = look c r
    \/ (isspace c = true /\ Forall (fun c => isspace c = true) r).

Lemma filter_all_space (s : str) :
  Forall (fun c => isspace c = true) s ->
  Forall (fun c => isspace c = true) (f s).
Proof using f_nil f_cons.
  induction 1 as [|c r Hc _ IH]; [rewrite f_nil; constructor|].
  rewrite f_cons. destruct (look c r); [exact IH | now constructor].
Qed.

Lemma filter_lstrip_cons (c : N) (x : str) :
  isspace c = true -> lstrip (f (c :: x)) = lstrip (f x).
Proof using f_cons.
  intros Hc. rewrite f_cons. destruct (look c x); [reflexivity|].
  simpl. now rewrite Hc.
Qed.

Lemma filter_lstrip (s : str) : lstrip (f (lstrip s)) = lstrip (f s).
Proof using f_cons.
  induction s as [|c r IH]; [reflexivity|].
  simpl. destruct (isspace c) eqn:Hc; [|reflexivity].
  now rewrite filter_lstrip_cons.
Qed.

Lemma filter_rstrip_app (s t : str) :
  Forall (fun c => isspace c = true) t ->
  rstrip (f (s ++ t)) = rstrip (f s).
Proof using f_nil f_cons look_space look_app.
  intros Ht. induction s as [|c r IH].
  - simpl. rewrite f_nil. apply rstrip_all_space.
    now apply filter_all_space.
  - simpl. rewrite !f_cons.
    destruct (look_app c r t Ht) as [-> | [Hc Hr]].
    + destruct (look c r); [exact IH|].
      rewrite !rstrip_cons. now rewrite IH.
    + assert (Hfr : rstrip (f r) = [])
        by now apply rstrip_all_space, filter_all_space.
      assert (Hfrt : rstrip (f (r ++ t)) = []) by now rewrite IH.
      destruct (look c (r ++ t)), (look c r);
        rewrite ?rstrip_cons, ?Hfr, ?Hfrt, ?Hc; reflexivity.
Qed.

Lemma filter_rstrip (s : str) : rstrip (f (rstrip s)) = rstrip (f s).
Proof using f_nil f_cons look_space look_app.
  destruct (rstrip_split s) as [t [Hs Ht]].
  rewrite Hs at 2. now rewrite filter_rstrip_app.
Qed.

End LookaheadFilter.

(** ** The normalisation of the specification *)

Lemma is_hspace_isspace (c : N) : is_hspace c = true -> isspace c = true.
Proof.
  unfold is_hspace, SPACE, TAB. intros H.
  apply orb_true_iff in H as [H | H]; apply N.eqb_eq in H; now subst.
Qed.

Lemma is_hspace_not_nl (c : N) : is_hspace c = true -> (c =? NL) = false.
Proof.
  unfold is_hspace, SPACE, TAB, NL. intros H.
  apply orb_true_iff in H as [H | H]; apply N.eqb_eq in H; now subst.
Qed.

Lemma hspace_then_nl_app (r t : str) :
  Forall (fun c => isspace c = true) t ->
  hspace_then_nl (r ++ t) = hspace_then_nl r
  \/ Forall (fun c => isspace c = true) r.
Proof.
  intros Ht. induction r as [|d r IH]; [right; constructor|].
  simpl. destruct (d =? NL) eqn:Hd; [now left|].
  destruct (is_hspace d) eqn:Hh; [|now left].
  destruct IH as [-> | IH]; [now left|].
  right. constructor; [now apply is_hspace_isspace | exact IH].
Qed.

Lemma startswith_nl2_app (r t : str) :
  Forall (fun c => isspace c = true) t ->
  startswith [NL; NL] (r ++ t) = startswith [NL; NL] r
  \/ Forall (fun c => isspace c = true) r.
Proof.
  intros Ht. destruct r as [|a [|b r]]; [right; constructor | | now left].
  destruct (N.eq_dec a NL) as [-> | Ha]; [right; now repeat constructor|].
  left. cbn [app startswith].
  replace (NL =? a) with false; [reflexivity|].
  symmetry. apply N.eqb_neq. congruence.
Qed.

Lemma drop_hspace_lstrip (s : str) :
  lstrip (spec_drop_trailing_hspace (lstrip s))
  = lstrip (spec_drop_trailing_hspace s).
Proof.
  apply (filter_lstrip (fun c r => is_hspace c && hspace_then_nl r)).
  reflexivity.
Qed.

Lemma collapse_lstrip (s : str) :
  lstrip (spec_collapse_line_breaks (lstrip s))
  = lstrip (spec_collapse_line_breaks s).
Proof.
  apply (filter_lstrip (fun c r => (c =? NL) && startswith [NL; NL] r)).
  reflexivity.
Qed.

Lemma drop_hspace_rstrip (s : str) :
  rstrip (spec_drop_trailing_hspace (rstrip s))
  = rstrip (spec_drop_trailing_hspace s).
Proof.
  apply (filter_rstrip (fun c r => is_hspace c && hspace_then_nl r));
    try reflexivity.
  - intros c r H. apply andb_true_iff in H as [H _].
    now apply is_hspace_isspace.
  - intros c r t Ht. destruct (is_hspace c) eqn:Hc; [|now left].
    destruct (hspace_then_nl_app r t Ht) as [-> | H]; [now left|].
    right. split; [now apply is_hspace_isspace | exact H].
Qed.

Lemma collapse_rstrip (s : str) :
  rstrip (spec_collapse_line_breaks (rstrip s))
  = rstrip (spec_collapse_line_breaks s).
Proof.
  apply (filter_rstrip (fun c r => (c =? NL) && startswith [NL; NL] r));
    try reflexivity.
  - intros c r H. apply andb_true_iff in H as [H _].
    apply N.eqb_eq in H. now subst.
  - intros c r t Ht. destruct (c =? NL) eqn:Hc; [|now left].
    destruct (startswith_nl2_app r t Ht) as [-> | H]; [now left|].
    right. apply N.eqb_eq in Hc. subst. split; [reflexivity | exact H].
Qed.

(** Stripping before normalising, as the program does, changes nothing. *)
Lemma spec_normalize_strip (s : str) :
  spec_normalize (strip s) = spec_normalize s.
Proof.
  unfold spec_normalize, strip.
  set (F1 := spec_drop_trailing_hspace).
  set (F2 := spec_collapse_line_breaks).
  assert (L : forall x, lstrip (F2 (F1 (lstrip x))) = lstrip (F2 (F1 x))).
  { intros x. unfold F1, F2.
    rewrite <- collapse_lstrip, drop_hspace_lstrip.
    now rewrite collapse_lstrip. }
  assert (R : forall x, rstrip (F2 (F1 (rstrip x))) = rstrip (F2 (F1 x))).
  { intros x. unfold F1, F2.
    rewrite <- collapse_rstrip, drop_hspace_rstrip.
    now rewrite collapse_rstrip. }
  rewrite <- (lstrip_rstrip (F2 (F1 (rstrip (lstrip s))))).
  rewrite R. rewrite lstrip_rstrip. now rewrite L.
Qed.

(** ** The regular-expression substitutions compute the specification's
       filters *)

Lemma span_len_le (p : N -> bool) (s : str) : (span_len p s <= length s)%nat.
Proof.
  induction s as [|c r IH]; simpl; [lia|]. destruct (p c); simpl; lia.
Qed.

Lemma re_sub_from_skip m repl (p q : str) :
  re_sub_from m repl (length p) (p ++ q) = re_sub_from m repl 0 q.
Proof. induction p as [|c p IH]; simpl; [reflexivity | exact IH]. Qed.

Lemma re_sub_from_skip_take m repl (k : nat) (s : str) :
  (k <= length s)%nat ->
  re_sub_from m repl k s = re_sub_from m repl 0 (drop k s).
Proof.
  intros Hk. rewrite <- (take_drop k s) at 1.
  rewrite <- (re_sub_from_skip m repl (take k s) (drop k s)).
  f_equal. rewrite length_take. lia.
Qed.

(** The lookahead of the specification, read off the greedy run. *)
Lemma hspace_then_nl_span (r : str) :
  hspace_then_nl r =
  match drop (span_len is_hspace r) r with
  | d :: _ => d =? NL
  | [] => false
  end.
Proof.
  induction r as [|d r IH]; [reflexivity|].
  cbn [hspace_then_nl span_len].
  destruct (is_hspace d) eqn:Hh.
  - rewrite (is_hspace_not_nl d Hh). simpl. exact IH.
  - simpl. now rewrite orb_false_r.
Qed.

Lemma match_hspace_nl_cons (c : N) (r : str) :
  match_hspace_nl (c :: r) =
  if is_hspace c && hspace_then_nl r
  then Some (S (S (span_len is_hspace r))) else None.
Proof.
  unfold match_hspace_nl. cbn [span_len].
  destruct (is_hspace c); [|reflexivity].
  rewrite hspace_then_nl_span. cbn [drop andb].
  destruct (drop (span_len is_hspace r) r) as [|d x]; [reflexivity|].
  now destruct (d =? NL).
Qed.

Lemma drop_hspace_run (r : str) :
  hspace_then_nl r = true ->
  exists x, drop (span_len is_hspace r) r = NL :: x
            /\ spec_drop_trailing_hspace r = NL :: spec_drop_trailing_hspace x.
Proof.
  induction r as [|d r IH]; [discriminate|].
  cbn [hspace_then_nl span_len spec_drop_trailing_hspace].
  destruct (is_hspace d) eqn:Hh.
  - rewrite (is_hspace_not_nl d Hh). cbn [orb andb]. intros H.
    rewrite H. exact (IH H).
  - rewrite orb_false_r. intros H. apply N.eqb_eq in H. subst d.
    exists r. now split.
Qed.

Lemma re_sub_hspace_nl_spec (s : str) :
  re_sub match_hspace_nl [NL] s = spec_drop_trailing_hspace s.
Proof.
  unfold re_sub.
  remember (length s) as n eqn:Hn.
  assert (Hle : (length s <= n)%nat) by lia. clear Hn.
  revert s Hle. induction n as [|n IH]; intros s Hle.
  - destruct s; [reflexivity | simpl in Hle; lia].
  - destruct s as [|c r]; [reflexivity|].
    simpl in Hle.
    cbn [re_sub_from spec_drop_trailing_hspace].
    rewrite match_hspace_nl_cons.
    destruct (is_hspace c && hspace_then_nl r) eqn:E.
    + apply andb_true_iff in E as [_ E].
      destruct (drop_hspace_run r E) as [x [Hx Hs]].
      rewrite Hs. cbn [app]. f_equal.
      pose proof (span_len_le is_hspace r) as Hk.
      assert (Hlen : length (drop (span_len is_hspace r) r) = S (length x))
        by now rewrite Hx.
      rewrite length_drop in Hlen.
      rewrite re_sub_from_skip_take by lia.
      change (S (span_len is_hspace r)) with (1 + span_len is_hspace r)%nat.
      rewrite Nat.add_comm, <- drop_drop, Hx. cbn [drop].
      apply IH. lia.
    + f_equal. apply IH. lia.
Qed.

Lemma collapse_lookahead_span (c : N) (r : str) :
  (c =? NL) && startswith [NL; NL] r = (3 <=? span_len is_nl (c :: r))%nat.
Proof.
  cbn [span_len]. unfold is_nl at 1.
  destruct (c =? NL); [|reflexivity].
  destruct r as [|a [|b r]]; cbn [startswith span_len andb]; unfold is_nl.
  - reflexivity.
  - rewrite (N.eqb_sym NL a). now destruct (a =? NL).
  - rewrite (N.eqb_sym NL a), (N.eqb_sym NL b).
    destruct (a =? NL); [|reflexivity].
    now destruct (b =? NL).
Qed.

Lemma collapse_run (r : str) :
  (2 <= span_len is_nl r)%nat ->
  spec_collapse_line_breaks r
  = NL :: NL :: spec_collapse_line_breaks (drop (span_len is_nl r) r).
Proof.
  induction r as [|a r IH]; [simpl; lia|].
  intros H. cbn [spec_collapse_line_breaks].
  rewrite collapse_lookahead_span.
  revert H. cbn [span_len]. destruct (is_nl a) eqn:Ha; [|lia].
  intros H. cbn [drop].
  destruct (3 <=? S (span_len is_nl r))%nat eqn:E.
  - apply Nat.leb_le in E. apply IH. lia.
  - apply Nat.leb_gt in E.
    assert (Hr : span_len is_nl r = 1%nat) by lia.
    destruct r as [|b r]; [discriminate|].
    revert Hr. cbn [span_len]. destruct (is_nl b) eqn:Hb; [|discriminate].
    intros Hr. injection Hr as Hr. rewrite Hr. cbn [drop].
    unfold is_nl in Ha, Hb. apply N.eqb_eq in Ha, Hb. subst a b.
    f_equal. cbn [spec_collapse_line_breaks].
    rewrite collapse_lookahead_span. cbn [span_len].
    change (is_nl NL) with true. cbv iota. rewrite Hr. reflexivity.
Qed.

Lemma re_sub_nl3_spec (s : str) :
  re_sub match_nl3 [NL; NL] s = spec_collapse_line_breaks s.
Proof.
  unfold re_sub.
  remember (length s) as n eqn:Hn.
  assert (Hle : (length s <= n)%nat) by lia. clear Hn.
  revert s Hle. induction n as [|n IH]; intros s Hle.
  - destruct s; [reflexivity | simpl in Hle; lia].
  - destruct s as [|c r]; [reflexivity|].
    simpl in Hle.
    cbn [re_sub_from spec_collapse_line_breaks].
    rewrite collapse_lookahead_span. unfold match_nl3.
    destruct (3 <=? span_len is_nl (c :: r))%nat eqn:E.
    + apply Nat.leb_le in E. revert E. cbn [span_len].
      destruct (is_nl c); [|lia]. intros E.
      rewrite collapse_run by lia. cbn [app]. do 2 f_equal.
      pose proof (span_len_le is_nl r) as Hk.
      rewrite re_sub_from_skip_take by lia.
      apply IH. rewrite length_drop. lia.
    + f_equal. apply IH. lia.
Qed.

(** The program's normalisation is the specification's. *)
Lemma normalisation_refines (mid : str) :
  strip (re_sub match_nl3 [NL; NL]
           (re_sub match_hspace_nl [NL] (strip mid)))
  = spec_normalize mid.
Proof.
  rewrite re_sub_hspace_nl_spec, re_sub_nl3_spec.
  exact (spec_normalize_strip mid).
Qed.

(** ** Searching *)

Lemma startswith_spec (p s : str) :
  startswith p s = true <-> exists t, s = p ++ t.
Proof.
  revert s. induction p as [|a p IH]; intros s.
  - simpl. split; [intros _; now exists s | reflexivity].
  - destruct s as [|b s]; simpl.
    + split; [discriminate | intros [t H]; discriminate].
    + rewrite andb_true_iff, N.eqb_eq, IH. split.
      * intros [-> [t ->]]. now exists t.
      * intros [t [= -> ->]]. split; [reflexivity | now exists t].
Qed.

Lemma occurs_at_0 (sub s : str) :
  occurs_at sub s 0 <-> startswith sub s = true.
Proof.
  rewrite startswith_spec. split.
  - intros [a [b [-> Ha]]]. destruct a; [|discriminate]. now exists b.
  - intros [t ->]. now exists [], t.
Qed.

Lemma occurs_at_S (sub : str) (c : N) (r : str) (j : nat) :
  occurs_at sub (c :: r) (S j) <-> occurs_at sub r j.
Proof.
  split.
  - intros [a [b [H Ha]]]. destruct a as [|d a]; [discriminate|].
    injection H as -> ->. injection Ha as Ha. now exists a, b.
  - intros [a [b [-> Ha]]]. exists (c :: a), b. simpl. now rewrite Ha.
Qed.

Lemma occurs_at_length (sub s : str) (i : nat) :
  occurs_at sub s i -> (i + length sub <= length s)%nat.
Proof.
  intros [a [b [-> <-]]]. rewrite !length_app. lia.
Qed.

Lemma occurs_at_drop (sub s : str) (n k : nat) :
  (n <= length s)%nat ->
  occurs_at sub (drop n s) k <-> occurs_at sub s (n + k).
Proof.
  revert s. induction n as [|n IH]; intros s Hn; [now rewrite drop_0|].
  destruct s as [|c r]; [simpl in Hn; lia|].
  simpl in Hn. cbn [drop Nat.add]. rewrite occurs_at_S. apply IH. lia.
Qed.

Lemma find_Some_first (sub s : str) (i : nat) :
  find sub s = Some i -> first_at sub s i.
Proof.
  revert i. induction s as [|c r IH]; intros i; cbn [find].
  - destruct (startswith sub []) eqn:E; [|discriminate].
    intros [= <-]. split; [now apply occurs_at_0 | lia].
  - destruct (startswith sub (c :: r)) eqn:E.
    + intros [= <-]. split; [now apply occurs_at_0 | lia].
    + destruct (find sub r) as [i'|]; [|discriminate].
      intros [= <-]. destruct (IH i' eq_refl) as [Ho Hmin]. split.
      * now apply occurs_at_S.
      * intros [|j] Hj.
        -- apply occurs_at_0 in Hj. congruence.
        -- apply occurs_at_S in Hj. apply Hmin in Hj. lia.
Qed.

Lemma find_None_absent (sub s : str) :
  find sub s = None -> ~ occurs sub s.
Proof.
  induction s as [|c r IH]; cbn [find].
  - destruct (startswith sub []) eqn:E; [discriminate|].
    intros _ [[|j] Hj].
    + apply occurs_at_0 in Hj. congruence.
    + apply occurs_at_length in Hj. simpl in Hj. lia.
  - destruct (startswith sub (c :: r)) eqn:E; [discriminate|].
    destruct (find sub r) as [i'|]; [discriminate|].
    intros _ [[|j] Hj].
    + apply occurs_at_0 in Hj. congruence.
    + apply occurs_at_S in Hj. apply IH; [reflexivity | now exists j].
Qed.

Lemma first_at_unique (sub s : str) (i j : nat) :
  first_at sub s i -> first_at sub s j -> i = j.
Proof.
  intros [Hi Hmi] [Hj Hmj]. apply Hmi in Hj. apply Hmj in Hi. lia.
Qed.

Lemma find_first (sub s : str) (i : nat) :
  find sub s = Some i <-> first_at sub s i.
Proof.
  split; [apply find_Some_first|].
  intros H. destruct (find sub s) as [j|] eqn:E.
  - f_equal. eapply first_at_unique; [|exact H]. now apply find_Some_first.
  - exfalso. apply (find_None_absent _ _ E). exists i. apply H.
Qed.

Lemma find_None (sub s : str) : find sub s = None <-> ~ occurs sub s.
Proof.
  split; [apply find_None_absent|].
  intros H. destruct (find sub s) as [j|] eqn:E; [|reflexivity].
  exfalso. apply H. exists j. now apply find_Some_first.
Qed.

Lemma contains_occurs (sub s : str) : contains sub s = true <-> occurs sub s.
Proof.
  unfold contains. destruct (find sub s) as [j|] eqn:E.
  - split; [|reflexivity]. intros _. exists j. now apply find_Some_first.
  - split; [discriminate|]. intros H. now apply find_None in E.
Qed.

Lemma occurs_dec (sub s : str) : occurs sub s \/ ~ occurs sub s.
Proof.
  destruct (find sub s) as [j|] eqn:E.
  - left. exists j. now apply find_Some_first.
  - right. now apply find_None.
Qed.

(** ** The extractor, case by case *)

(** The markers cannot overlap: an end marker that begins at or after the
    beginning of a start marker begins after its end. *)
Lemma end_marker_clear_of_start (s : str) (i j : nat) :
  occurs_at START_MARKER s i -> occurs_at END_MARKER s j ->
  (i <= j)%nat -> (i + length START_MARKER <= j)%nat.
Proof.
  intros [a [b [Hs Ha]]] [a' [b' [He Ha']]] Hij.
  destruct (Nat.lt_ge_cases j (i + length START_MARKER)) as [Hlt|]; [|lia].
  exfalso.
  assert (H1 : s !! j = Some 80).
  { rewrite He, lookup_app_r by lia.
    replace (j - length a')%nat with 0%nat by lia. reflexivity. }
  assert (H2 : s !! j = START_MARKER !! (j - i)%nat).
  { rewrite Hs, lookup_app_r by lia. rewrite Ha.
    apply lookup_app_l. lia. }
  rewrite H1 in H2. symmetry in H2.
  apply list_elem_of_lookup_2, list_elem_of_In in H2.
  assert (Hno : existsb (N.eqb 80) START_MARKER = false) by reflexivity.
  apply not_true_iff_false in Hno. apply Hno.
  apply existsb_exists. exists 80. split; [exact H2 | reflexivity].
Qed.

Section ExtractorFacts.

Variable get_text : str -> str.

Lemma extract_cases (html : str) :
  extract_current_social_events get_text html =
  match find START_MARKER (get_text html), find END_MARKER (get_text html) with
  | Some i, Some _ =>
      match find END_MARKER
              (drop (i + length START_MARKER) (get_text html)) with
      | Some k =>
          inr (spec_normalize
                 (take k (drop (i + length START_MARKER) (get_text html))))
      | None => inl (ValueError (py "substring not found"))
      end
  | _, _ =>
      inl (RuntimeError
             (py "Could not find markers. Needed 'Current social events' and 'Past events'."))
  end.
Proof.
  unfold extract_current_social_events, contains, index, index_from.
  set (ft := get_text html).
  destruct (find START_MARKER ft) as [i|] eqn:Es; [|reflexivity].
  destruct (find END_MARKER ft) as [j|] eqn:Ee; [|reflexivity].
  cbn [negb orb]. rewrite drop_0, Es. cbn [Nat.leb Nat.add].
  apply find_Some_first in Es as [Hocc _].
  apply occurs_at_length in Hocc.
  destruct (i + length START_MARKER <=? length ft)%nat eqn:El;
    [|apply Nat.leb_gt in El; lia].
  destruct (find END_MARKER (drop (i + length START_MARKER) ft)) as [k|];
    [|reflexivity].
  f_equal. unfold slice.
  replace (i + length START_MARKER + k - (i + length START_MARKER))%nat
    with k by lia.
  apply normalisation_refines.
Qed.

End ExtractorFacts.

(** ** No run of blank lines longer than one *)

Lemma collapse_head_nl (r : str) :
  startswith [NL] (spec_collapse_line_breaks r) = true ->
  startswith [NL] r = true.
Proof.
  destruct r as [|d r]; [discriminate|].
  cbn [spec_collapse_line_breaks].
  destruct ((d =? NL) && startswith [NL; NL] r) eqn:E.
  - intros _. apply andb_true_iff in E as [E _].
    cbn [startswith]. rewrite N.eqb_sym, E. reflexivity.
  - cbn [startswith]. now rewrite !andb_true_r.
Qed.

Lemma collapse_head_nl2 (r : str) :
  startswith [NL; NL] (spec_collapse_line_breaks r) = true ->
  startswith [NL; NL] r = true.
Proof.
  destruct r as [|d r]; [discriminate|].
  cbn [spec_collapse_line_breaks].
  destruct ((d =? NL) && startswith [NL; NL] r) eqn:E.
  - intros _. apply andb_true_iff in E as [E1 E2].
    change (startswith [NL; NL] (d :: r))
      with ((NL =? d) && startswith [NL] r).
    rewrite N.eqb_sym, E1. cbn [andb].
    destruct r as [|e r]; [discriminate|].
    revert E2. cbn [startswith]. intros E2.
    apply andb_true_iff in E2 as [E2 _]. now rewrite E2.
  - change (startswith [NL; NL] (d :: spec_collapse_line_breaks r))
      with ((NL =? d) && startswith [NL] (spec_collapse_line_breaks r)).
    change (startswith [NL; NL] (d :: r))
      with ((NL =? d) && startswith [NL] r).
    intros H. apply andb_true_iff in H as [H1 H2].
    rewrite H1. now rewrite (collapse_head_nl r H2).
Qed.

Lemma collapse_no_blank_run (s : str) :
  ~ occurs [NL; NL; NL] (spec_collapse_line_breaks s).
Proof.
  intros [j Hj]. revert j Hj. induction s as [|c r IH]; intros j Hj.
  - apply occurs_at_length in Hj. simpl in Hj. lia.
  - revert Hj. cbn [spec_collapse_line_breaks].
    destruct ((c =? NL) && startswith [NL; NL] r) eqn:E; [apply IH|].
    destruct j as [|j]; [|rewrite occurs_at_S; apply IH].
    rewrite occurs_at_0.
    change (startswith [NL; NL; NL] (c :: spec_collapse_line_breaks r))
      with ((NL =? c) && startswith [NL; NL] (spec_collapse_line_breaks r)).
    intros H. apply andb_true_iff in H as [H1 H2].
    apply collapse_head_nl2 in H2.
    rewrite N.eqb_sym, H1, H2 in E. discriminate.
Qed.

Lemma occurs_in_middle (sub l x t : str) :
  occurs sub x -> occurs sub (l ++ x ++ t).
Proof.
  intros [j [a [b [-> _]]]].
  exists (length (l ++ a)), (l ++ a), (b ++ t).
  split; [now rewrite <- !app_assoc | reflexivity].
Qed.

Lemma spec_normalize_no_blank_run (s : str) :
  ~ occurs [NL; NL; NL] (spec_normalize s).
Proof.
  unfold spec_normalize. intros H.
  destruct (strip_split (spec_collapse_line_breaks
                           (spec_drop_trailing_hspace s)))
    as [l [t [Hs _]]].
  apply (collapse_no_blank_run (spec_drop_trailing_hspace s)).
  rewrite Hs. now apply occurs_in_middle.
Qed.

(** ** No blanks left before a line break, and a trimmed result *)

Lemma drop_hspace_head_nl (r : str) :
  startswith [NL] (spec_drop_trailing_hspace r) = true ->
  hspace_then_nl r = true.
Proof.
  induction r as [|c r IH]; [discriminate|].
  cbn [spec_drop_trailing_hspace hspace_then_nl].
  destruct (is_hspace c && hspace_then_nl r) eqn:E.
  - intros _. apply orb_true_r.
  - cbn [startswith]. rewrite andb_true_r, orb_false_r, N.eqb_sym.
    now intros ->.
Qed.

Lemma occurs_at_cons (sub : str) (c : N) (x : str) (j : nat) :
  occurs_at sub (c :: x) j ->
  startswith sub (c :: x) = true \/ occurs sub x.
Proof.
  destruct j as [|j]; intros H.
  - left. now apply occurs_at_0.
  - right. exists j. now apply occurs_at_S in H.
Qed.

Lemma pair_at_head (c d : N) (x : str) :
  startswith [c; NL] (d :: x) = true -> c = d /\ startswith [NL] x = true.
Proof.
  change (startswith [c; NL] (d :: x)) with ((c =? d) && startswith [NL] x).
  intros H. apply andb_true_iff in H as [H1 H2].
  apply N.eqb_eq in H1. now split.
Qed.

Lemma drop_hspace_clean (s : str) (c : N) :
  is_hspace c = true -> ~ occurs [c; NL] (spec_drop_trailing_hspace s).
Proof.
  intros Hc [j Hj]. revert j Hj. induction s as [|d r IH]; intros j Hj.
  - apply occurs_at_length in Hj. simpl in Hj. lia.
  - revert Hj. cbn [spec_drop_trailing_hspace].
    destruct (is_hspace d && hspace_then_nl r) eqn:E; [apply IH|].
    intros Hj. apply occurs_at_cons in Hj as [Hj | [j' Hj]]; [|now apply (IH j')].
    apply pair_at_head in Hj as [<- Hj].
    apply drop_hspace_head_nl in Hj. now rewrite Hc, Hj in E.
Qed.

Lemma collapse_clean (s : str) (c : N) :
  ~ occurs [c; NL] s -> ~ occurs [c; NL] (spec_collapse_line_breaks s).
Proof.
  induction s as [|d r IH]; intros Hs [j Hj].
  - apply occurs_at_length in Hj. simpl in Hj. lia.
  - assert (Hr : ~ occurs [c; NL] r).
    { intros [i Hi]. apply Hs. exists (S i). now apply occurs_at_S. }
    revert Hj. cbn [spec_collapse_line_breaks].
    destruct ((d =? NL) && startswith [NL; NL] r) eqn:E;
      [intros Hj; apply (IH Hr); now exists j|].
    intros Hj. apply occurs_at_cons in Hj as [Hj | Hj]; [|now apply (IH Hr)].
    apply pair_at_head in Hj as [<- Hj]. apply collapse_head_nl in Hj.
    apply Hs. exists 0%nat. apply occurs_at_0.
    change (startswith [c; NL] (c :: r)) with ((c =? c) && startswith [NL] r).
    now rewrite N.eqb_refl, Hj.
Qed.

Lemma spec_normalize_clean (s : str) (c : N) :
  is_hspace c = true -> ~ occurs [c; NL] (spec_normalize s).
Proof.
  intros Hc H. unfold spec_normalize in H.
  destruct (strip_split (spec_collapse_line_breaks
                           (spec_drop_trailing_hspace s)))
    as [l [t [Hs _]]].
  apply (collapse_clean (spec_drop_trailing_hspace s) c).
  - now apply drop_hspace_clean.
  - rewrite Hs. now apply occurs_in_middle.
Qed.

Lemma strip_idemp (s : str) : strip (strip s) = strip s.
Proof.
  unfold strip. rewrite <- lstrip_rstrip, rstrip_idemp.
  rewrite lstrip_rstrip, lstrip_idemp. reflexivity.
Qed.

Lemma spec_normalize_trimmed (s : str) :
  strip (spec_normalize s) = spec_normalize s.
Proof. unfold spec_normalize. apply strip_idemp. Qed.

(** A stripped string neither begins nor ends with white space. *)
Lemma strip_head (s : str) (c : N) (r : str) :
  strip s = c :: r -> isspace c = false.
Proof.
  unfold strip. rewrite <- lstrip_rstrip. apply lstrip_head.
Qed.

Lemma strip_last (s r : str) (c : N) :
  strip s = r ++ [c] -> isspace c = false.
Proof.
  unfold strip, rstrip. intros H.
  apply (f_equal (@rev N)) in H.
  rewrite rev_involutive, rev_app_distr in H. simpl in H.
  exact (lstrip_head _ _ _ H).
Qed.

(** ** Claims on the extractor *)

(** C1.  When the start marker occurs in the flattened text and the end
    marker occurs after it, the extractor returns the text strictly
    between the first start marker and the first end marker after it,
    normalised as the specification says: horizontal white space before
    line breaks removed, runs of three or more line breaks collapsed to
    two, and the result trimmed.  In the result no space or tab stands
    before a line break, there are no three consecutive line breaks (no
    run of empty lines longer than one), and trimming changes nothing:
    the result neither begins nor ends with a white-space character, and
    it is the text with the two line-wise steps applied, less a run of
    white space at either end. *)
Theorem extract_between_markers
    (get_text : str -> str) (html a b c : str) :
  get_text html = a ++ START_MARKER ++ b ++ END_MARKER ++ c ->
  exists pre mid post,
    get_text html = pre ++ START_MARKER ++ mid ++ END_MARKER ++ post
    /\ first_at START_MARKER (get_text html) (length pre)
    /\ (forall j, occurs_at END_MARKER (get_text html) j ->
                  (length pre + length START_MARKER <= j)%nat ->
                  (length pre + length START_MARKER + length mid <= j)%nat)
    /\ extract_current_social_events get_text html
       = inr (spec_normalize mid)
    /\ (forall c, is_hspace c = true ->
                  ~ occurs [c; NL] (spec_normalize mid))
    /\ ~ occurs [NL; NL; NL] (spec_normalize mid)
    /\ strip (spec_normalize mid) = spec_normalize mid
    /\ (forall c r, spec_normalize mid = c :: r -> isspace c = false)
    /\ (forall r c, spec_normalize mid = r ++ [c] -> isspace c = false)
    /\ (exists l t,
          spec_collapse_line_breaks (spec_drop_trailing_hspace mid)
          = l ++ spec_normalize mid ++ t
          /\ Forall (fun c => isspace c = true) l
          /\ Forall (fun c => isspace c = true) t).
Proof.
  intros Hft. rewrite extract_cases.
  set (ft := get_text html) in *.
  set (n := length START_MARKER).
  assert (Hs : occurs_at START_MARKER ft (length a)).
  { exists a, (b ++ END_MARKER ++ c). now split. }
  assert (He : occurs_at END_MARKER ft (length a + n + length b)).
  { exists (a ++ START_MARKER ++ b), c. split.
    - now rewrite Hft, <- !app_assoc.
    - rewrite !length_app. fold n. lia. }
  destruct (find START_MARKER ft) as [i|] eqn:Es;
    [|apply find_None in Es; exfalso; apply Es; now exists (length a)].
  destruct (find END_MARKER ft) as [j0|] eqn:Ee;
    [|apply find_None in Ee; exfalso; apply Ee; eexists; exact He].
  apply find_first in Es. destruct Es as [Hi Hmin].
  pose proof (Hmin _ Hs) as Hia.
  pose proof (occurs_at_length _ _ _ Hi) as Hlen. fold n in Hlen.
  assert (He' : occurs_at END_MARKER (drop (i + n) ft)
                  (length a + length b - i)).
  { apply occurs_at_drop; [lia|].
    replace (i + n + (length a + length b - i))%nat
      with (length a + n + length b)%nat by lia.
    exact He. }
  destruct (find END_MARKER (drop (i + n) ft)) as [k|] eqn:Ek;
    [|apply find_None in Ek; exfalso; apply Ek; eexists; exact He'].
  apply find_first in Ek. destruct Ek as [Hk Hkmin].
  destruct Hi as [pre [rest [Hpre Hprelen]]].
  assert (Hrest : drop (i + n) ft = rest).
  { rewrite Hpre, app_assoc. apply drop_app_length'.
    rewrite length_app. fold n. lia. }
  rewrite Hrest in Hk, Hkmin |- *.
  destruct Hk as [mid [post [Hmid Hmidlen]]].
  exists pre, mid, post. subst i k.
  assert (Htake : take (length mid) rest = mid).
  { rewrite Hmid. apply take_app_length. }
  rewrite Htake.
  split; [|split; [|split; [|split; [|split; [|split; [|split;
    [|split; [|split]]]]]]]].
  - now rewrite Hpre, Hmid.
  - split; [exists pre, rest; now split | exact Hmin].
  - intros j Hj Hge.
    replace j with (length pre + n + (j - (length pre + n)))%nat in Hj by lia.
    apply occurs_at_drop in Hj; [|lia].
    rewrite Hpre in Hj at 1.
    rewrite app_assoc, drop_app_length' in Hj
      by (rewrite length_app; fold n; lia).
    apply Hkmin in Hj. fold n. lia.
  - reflexivity.
  - intros c0. apply spec_normalize_clean.
  - apply spec_normalize_no_blank_run.
  - apply spec_normalize_trimmed.
  - intros c0 r0. apply strip_head.
  - intros r0 c0. apply strip_last.
  - apply strip_split.
Qed.

Lemma extract_between_markers_witness :
  get_text_plain sample_page
  = py "Intro " ++ START_MARKER
       ++ ([NL] ++ py "Concert  " ++ [NL; NL; NL; NL] ++ py "Friday "
               ++ [TAB; NL])
       ++ END_MARKER ++ py " and more"
  /\ (exists pre mid post,
      get_text_plain sample_page
      = pre ++ START_MARKER ++ mid ++ END_MARKER ++ post
      /\ first_at START_MARKER (get_text_plain sample_page) (length pre)
      /\ (forall j, occurs_at END_MARKER (get_text_plain sample_page) j ->
                    (length pre + length START_MARKER <= j)%nat ->
                    (length pre + length START_MARKER + length mid <= j)%nat)
      /\ extract_current_social_events get_text_plain sample_page
         = inr (spec_normalize mid)
      /\ (forall c, is_hspace c = true ->
                    ~ occurs [c; NL] (spec_normalize mid))
      /\ ~ occurs [NL; NL; NL] (spec_normalize mid)
      /\ strip (spec_normalize mid) = spec_normalize mid
      /\ (forall c r, spec_normalize mid = c :: r -> isspace c = false)
      /\ (forall r c, spec_normalize mid = r ++ [c] -> isspace c = false)
      /\ (exists l t,
            spec_collapse_line_breaks (spec_drop_trailing_hspace mid)
            = l ++ spec_normalize mid ++ t
            /\ Forall (fun c => isspace c = true) l
            /\ Forall (fun c => isspace c = true) t))
  /\ extract_current_social_events get_text_plain sample_page
     = inr (py "Concert" ++ [NL; NL] ++ py "Friday").
Proof.
  split; [reflexivity|]. split; [|vm_compute; reflexivity].
  apply (extract_between_markers get_text_plain sample_page
           (py "Intro ")
           ([NL] ++ py "Concert  " ++ [NL; NL; NL; NL] ++ py "Friday "
                ++ [TAB; NL])
           (py " and more")).
  reflexivity.
Defined.

Example extract_sample_page :
  extract_current_social_events get_text_plain sample_page
  = inr (py "Concert" ++ [NL; NL] ++ py "Friday").
Proof. reflexivity. Qed.

(** With the end marker only before the start marker it is [str.index]
    that raises. *)
Example extract_reversed_markers :
  extract_current_social_events get_text_plain reversed_markers
  = inl (ValueError (py "substring not found")).
Proof. reflexivity. Qed.

(** The extractor on a text split at its markers. *)
Lemma extract_of_split (get_text : str -> str) (html pre mid post : str) :
  get_text html = pre ++ START_MARKER ++ mid ++ END_MARKER ++ post ->
  first_at START_MARKER (get_text html) (length pre) ->
  (forall j, occurs_at END_MARKER (get_text html) j ->
             (length pre + length START_MARKER <= j)%nat ->
             (length pre + length START_MARKER + length mid <= j)%nat) ->
  extract_current_social_events get_text html = inr (spec_normalize mid).
Proof.
  intros Hft Hfirst Hend. rewrite extract_cases.
  set (ft := get_text html) in *.
  set (n := length START_MARKER) in *.
  assert (Hdrop : drop (length pre + n) ft = mid ++ END_MARKER ++ post).
  { rewrite Hft, app_assoc. apply drop_app_length'.
    rewrite length_app. fold n. lia. }
  assert (Hlen : (length pre + n <= length ft)%nat).
  { rewrite Hft, !length_app. fold n. lia. }
  apply find_first in Hfirst. rewrite Hfirst.
  assert (Hk : find END_MARKER (drop (length pre + n) ft) = Some (length mid)).
  { apply find_first. split.
    - rewrite Hdrop. now exists mid, post.
    - intros j Hj. apply occurs_at_drop in Hj; [|exact Hlen].
      apply Hend in Hj; lia. }
  destruct (find END_MARKER ft) as [j0|] eqn:Ee.
  - rewrite Hk, Hdrop. now rewrite take_app_length.
  - exfalso. apply find_None in Ee. apply Ee.
    exists (length (pre ++ START_MARKER ++ mid)), (pre ++ START_MARKER ++ mid), post.
    split; [now rewrite Hft, <- !app_assoc | reflexivity].
Qed.

(** C2, as stated, fails: on a page whose markers are adjacent the region
    between them is empty, and the extractor returns the empty block. *)
Lemma empty_region_is_returned :
  get_text_plain adjacent_markers = [] ++ START_MARKER ++ [] ++ END_MARKER ++ []
  /\ strip [] = []
  /\ extract_current_social_events get_text_plain adjacent_markers = inr []
  /\ ~ exists e,
        extract_current_social_events get_text_plain adjacent_markers = inl e.
Proof.
  repeat split; try reflexivity.
  intros [e H]. discriminate H.
Qed.

(** C2, amended.  When the region between the first start marker and the
    first end marker after it is empty after trimming, the extractor
    succeeds and returns the empty block: it has no check for emptiness. *)
Theorem extract_empty_region
    (get_text : str -> str) (html pre mid post : str) :
  get_text html = pre ++ START_MARKER ++ mid ++ END_MARKER ++ post ->
  first_at START_MARKER (get_text html) (length pre) ->
  (forall j, occurs_at END_MARKER (get_text html) j ->
             (length pre + length START_MARKER <= j)%nat ->
             (length pre + length START_MARKER + length mid <= j)%nat) ->
  strip mid = [] ->
  extract_current_social_events get_text html = inr [].
Proof.
  intros Hft Hfirst Hend Hmid.
  rewrite (extract_of_split get_text html pre mid post Hft Hfirst Hend).
  now rewrite <- spec_normalize_strip, Hmid.
Qed.

Lemma extract_empty_region_witness :
  (get_text_plain (START_MARKER ++ [NL] ++ END_MARKER)
   = [] ++ START_MARKER ++ [NL] ++ END_MARKER ++ []
   /\ first_at START_MARKER
        (get_text_plain (START_MARKER ++ [NL] ++ END_MARKER)) 0
   /\ (forall j,
         occurs_at END_MARKER
           (get_text_plain (START_MARKER ++ [NL] ++ END_MARKER)) j ->
         (0 + length START_MARKER <= j)%nat ->
         (0 + length START_MARKER + length [NL] <= j)%nat)
   /\ strip [NL] = [])
  /\ extract_current_social_events get_text_plain
       (START_MARKER ++ [NL] ++ END_MARKER) = inr [].
Proof.
  assert (H1 : get_text_plain (START_MARKER ++ [NL] ++ END_MARKER)
               = [] ++ START_MARKER ++ [NL] ++ END_MARKER ++ [])
    by reflexivity.
  assert (H2 : first_at START_MARKER
                 (get_text_plain (START_MARKER ++ [NL] ++ END_MARKER)) 0)
    by (apply find_first; reflexivity).
  assert (H3 : forall j,
             occurs_at END_MARKER
               (get_text_plain (START_MARKER ++ [NL] ++ END_MARKER)) j ->
             (0 + length START_MARKER <= j)%nat ->
             (0 + length START_MARKER + length [NL] <= j)%nat).
  { intros j Hj Hge.
    change (0 + length START_MARKER)%nat with 21%nat in *.
    assert (F : first_at END_MARKER
                  (drop 21 (get_text_plain
                              (START_MARKER ++ [NL] ++ END_MARKER))) 1)
      by (apply find_first; reflexivity).
    replace j with (21 + (j - 21))%nat in Hj by lia.
    apply occurs_at_drop in Hj; [|simpl; lia].
    apply F in Hj. simpl. lia. }
  assert (H4 : strip [NL] = []) by reflexivity.
  exact (conj (conj H1 (conj H2 (conj H3 H4)))
           (extract_empty_region get_text_plain
              (START_MARKER ++ [NL] ++ END_MARKER) [] [NL] [] H1 H2 H3 H4)).
Defined.

(** The three outcomes of the extractor. *)
Lemma extract_outcome (get_text : str -> str) (html : str) :
  ((~ occurs START_MARKER (get_text html)
    \/ ~ occurs END_MARKER (get_text html))
   /\ extract_current_social_events get_text html
      = inl (RuntimeError
               (py "Could not find markers. Needed 'Current social events' and 'Past events'.")))
  \/ ((exists i, first_at START_MARKER (get_text html) i
                 /\ occurs END_MARKER (get_text html)
                 /\ forall j, occurs_at END_MARKER (get_text html) j ->
                              (j < i)%nat)
      /\ extract_current_social_events get_text html
         = inl (ValueError (py "substring not found")))
  \/ ((exists i j, first_at START_MARKER (get_text html) i
                   /\ occurs_at END_MARKER (get_text html) j
                   /\ (i <= j)%nat)
      /\ exists block,
           extract_current_social_events get_text html = inr block).
Proof.
  rewrite extract_cases.
  set (ft := get_text html).
  set (n := length START_MARKER).
  destruct (find START_MARKER ft) as [i|] eqn:Es;
    [|left; split; [left; now apply find_None | reflexivity]].
  destruct (find END_MARKER ft) as [j0|] eqn:Ee;
    [|left; split; [right; now apply find_None | reflexivity]].
  pose proof Es as Hfirst. apply find_first in Hfirst.
  pose proof (occurs_at_length _ _ _ (proj1 Hfirst)) as Hlen. fold n in Hlen.
  destruct (find END_MARKER (drop (i + n) ft)) as [k|] eqn:Ek.
  - right. right. split; [|eauto].
    apply find_Some_first in Ek as [Hk _].
    apply occurs_at_drop in Hk; [|lia].
    exists i, (i + n + k)%nat. split; [exact Hfirst|]. split; [exact Hk | lia].
  - right. left. split; [|reflexivity].
    exists i. split; [exact Hfirst|]. split.
    + exists j0. now apply find_Some_first.
    + intros j Hj. destruct (Nat.lt_ge_cases j i) as [|Hge]; [assumption|].
      exfalso.
      pose proof (end_marker_clear_of_start ft i j (proj1 Hfirst) Hj Hge)
        as Hclear. fold n in Hclear.
      apply find_None in Ek. apply Ek. exists (j - (i + n))%nat.
      apply occurs_at_drop; [lia|].
      now replace (i + n + (j - (i + n)))%nat with j by lia.
Qed.

(** C4.  The extractor raises exactly when the start marker is absent
    from the flattened text, or the end marker is absent, or every
    occurrence of the end marker lies before the first start marker.
    What it raises is one of the two marker-not-found exceptions: the
    explicit [RuntimeError] exactly when a marker is absent, and the
    [ValueError] of [str.index] exactly in the third case. *)
Theorem extraction_fails_iff (get_text : str -> str) (html : str) :
  ((exists e, extract_current_social_events get_text html = inl e) <->
   (~ occurs START_MARKER (get_text html)
    \/ ~ occurs END_MARKER (get_text html)
    \/ exists i, first_at START_MARKER (get_text html) i
                 /\ occurs END_MARKER (get_text html)
                 /\ forall j, occurs_at END_MARKER (get_text html) j ->
                              (j < i)%nat))
  /\ (forall e, extract_current_social_events get_text html = inl e ->
                marker_not_found e)
  /\ ((~ occurs START_MARKER (get_text html)
       \/ ~ occurs END_MARKER (get_text html)) <->
      extract_current_social_events get_text html
      = inl (RuntimeError
               (py "Could not find markers. Needed 'Current social events' and 'Past events'.")))
  /\ ((exists i, first_at START_MARKER (get_text html) i
                 /\ occurs END_MARKER (get_text html)
                 /\ forall j, occurs_at END_MARKER (get_text html) j ->
                              (j < i)%nat) <->
      extract_current_social_events get_text html
      = inl (ValueError (py "substring not found"))).
Proof.
  assert (X : forall i, first_at START_MARKER (get_text html) i ->
                        ~ occurs START_MARKER (get_text html) -> False).
  { intros i [Hi _] H. apply H. now exists i. }
  assert (Y : forall i i' j,
             first_at START_MARKER (get_text html) i ->
             first_at START_MARKER (get_text html) i' ->
             occurs_at END_MARKER (get_text html) j -> (i' <= j)%nat ->
             (forall j, occurs_at END_MARKER (get_text html) j -> (j < i)%nat) ->
             False).
  { intros i i' j Hi Hi' Hj Hle Hall.
    rewrite (first_at_unique _ _ _ _ Hi' Hi) in Hle.
    apply Hall in Hj. lia. }
  destruct (extract_outcome get_text html)
    as [[Ha ->] | [[(i & Hi & He & Hall) ->] | [(i & j & Hi & Hj & Hle) [b ->]]]].
  - split; [|split; [|split]].
    + split; [intros _; tauto | eauto].
    + intros e [= <-]. now left.
    + tauto.
    + split; [|discriminate]. intros (i & Hi & He & _).
      destruct Ha as [Ha | Ha]; [exfalso; now apply (X i) | contradiction].
  - split; [|split; [|split]].
    + split; [intros _; right; right; eauto | eauto].
    + intros e [= <-]. now right.
    + split; [|discriminate].
      intros [Ha | Ha]; [exfalso; now apply (X i) | contradiction].
    + split; [reflexivity | eauto].
  - split; [|split; [|split]].
    + split; [intros [e H]; discriminate H|].
      intros [Ha | [Ha | (i' & Hi' & _ & Hall)]].
      * exfalso. now apply (X i).
      * exfalso. apply Ha. now exists j.
      * exfalso. exact (Y i' i j Hi' Hi Hj Hle Hall).
    + intros e H. discriminate H.
    + split; [|discriminate].
      intros [Ha | Ha]; [exfalso; now apply (X i) | exfalso; apply Ha; now exists j].
    + split; [|discriminate]. intros (i' & Hi' & _ & Hall).
      exfalso. exact (Y i' i j Hi' Hi Hj Hle Hall).
Qed.

(** ** Digests are plain hexadecimal text *)

Lemma hex_digit_char (d : N) : d < 16 -> hex_char (hex_digit d).
Proof.
  intros H.
  assert (E : d = 0 \/ d = 1 \/ d = 2 \/ d = 3 \/ d = 4 \/ d = 5 \/ d = 6
              \/ d = 7 \/ d = 8 \/ d = 9 \/ d = 10 \/ d = 11 \/ d = 12
              \/ d = 13 \/ d = 14 \/ d = 15) by lia.
  repeat (destruct E as [-> | E]); try subst d; vm_compute; tauto.
Qed.

Lemma hex_char_plain (c : N) :
  hex_char c ->
  isspace c = false /\ (c =? CR) = false /\ is_surrogate c = false.
Proof.
  intros H. vm_compute in H.
  repeat (destruct H as [<- | H]; [now vm_compute|]). contradiction.
Qed.

Lemma be_bytes_small (n : nat) (x : N) :
  Forall (fun b => b < 256) (SHA256.be_bytes n x).
Proof.
  revert x. induction n as [|n IH]; intros x; simpl; [constructor|].
  apply Forall_app. split; [apply IH|].
  constructor; [|constructor]. now apply N.mod_lt.
Qed.

Lemma hexdigest_chars (data : bytes) : Forall hex_char (hexdigest data).
Proof.
  unfold hexdigest, SHA256.digest.
  generalize (SHA256.blocks (length (SHA256.pad data) / 64) SHA256.H0
                (SHA256.pad data)).
  intros ws. induction ws as [|x ws IH]; [constructor|].
  cbn [flat_map]. rewrite flat_map_app. apply Forall_app. split; [|exact IH].
  pose proof (be_bytes_small 4 x) as Hs.
  induction Hs as [|b bs Hb _ IHb]; [constructor|].
  cbn [flat_map]. apply Forall_app. split; [|exact IHb].
  unfold hex_byte. constructor; [|constructor; [|constructor]].
  - apply hex_digit_char. apply N.Div0.div_lt_upper_bound. lia.
  - apply hex_digit_char. now apply N.mod_lt.
Qed.

(** A digest has 64 characters. *)
Lemma round_length (st : list N) (kw : N * N) :
  length (SHA256.round st kw) = length st.
Proof.
  unfold SHA256.round.
  destruct st as [|a [|b [|c [|d [|e [|f [|g [|h [|i st]]]]]]]]]; reflexivity.
Qed.

Lemma compress_length (h : list N) (block : bytes) :
  length (SHA256.compress h block) = length h.
Proof.
  unfold SHA256.compress. rewrite length_map, length_combine.
  assert (E : forall l st,
             length (fold_left SHA256.round l st) = length st).
  { induction l as [|kw l IH]; intros st; [reflexivity|].
    cbn [fold_left]. now rewrite IH, round_length. }
  rewrite E. lia.
Qed.

Lemma blocks_length (n : nat) (h : list N) (bs : bytes) :
  length (SHA256.blocks n h bs) = length h.
Proof.
  revert h bs. induction n as [|n IH]; intros h bs; [reflexivity|].
  cbn [SHA256.blocks]. now rewrite IH, compress_length.
Qed.

Lemma be_bytes_length (n : nat) (x : N) : length (SHA256.be_bytes n x) = n.
Proof.
  revert x. induction n as [|n IH]; intros x; [reflexivity|].
  cbn [SHA256.be_bytes]. rewrite length_app, IH. simpl. lia.
Qed.

Lemma hexdigest_length (data : bytes) : length (hexdigest data) = 64%nat.
Proof.
  unfold hexdigest, SHA256.digest.
  assert (E : forall ws : list N,
             length (flat_map hex_byte (flat_map (SHA256.be_bytes 4) ws))
             = (8 * length ws)%nat).
  { induction ws as [|x ws IH]; [reflexivity|].
    cbn [flat_map]. rewrite flat_map_app, length_app, IH.
    assert (F : forall bs : bytes,
               length (flat_map hex_byte bs) = (2 * length bs)%nat).
    { induction bs as [|b bs IHb]; [reflexivity|].
      cbn [flat_map length app hex_byte]. rewrite IHb. lia. }
    rewrite F, be_bytes_length. simpl. lia. }
  rewrite E, blocks_length.
  assert (H : length SHA256.H0 = 8%nat) by (vm_compute; reflexivity).
  now rewrite H.
Qed.

Lemma strip_plain (s : str) :
  Forall (fun c => isspace c = false) s -> strip s = s.
Proof.
  intros H.
  assert (L : forall t, Forall (fun c => isspace c = false) t -> lstrip t = t).
  { intros t Ht. destruct Ht as [|c t Hc _]; [reflexivity|].
    simpl. now rewrite Hc. }
  unfold strip, rstrip. rewrite (L s H).
  rewrite L by now apply List.Forall_rev.
  apply rev_involutive.
Qed.

Lemma universal_newlines_plain (s : str) :
  Forall (fun c => (c =? CR) = false) s -> universal_newlines s = s.
Proof.
  induction 1 as [|c s Hc _ IH]; [reflexivity|].
  cbn [universal_newlines]. rewrite Hc. now rewrite IH.
Qed.

Lemma encode_utf8_from_plain (s : str) (pos : nat) :
  Forall (fun c => is_surrogate c = false) s ->
  exists data, encode_utf8_from pos s = inr data.
Proof.
  intros H. revert pos. induction H as [|c s Hc _ IH]; intros pos.
  - now exists [].
  - cbn [encode_utf8_from]. rewrite Hc.
    destruct (IH (S pos)) as [d ->]. eauto.
Qed.

Lemma encode_utf8_from_ok (s : str) (pos : nat) (data : bytes) :
  encode_utf8_from pos s = inr data ->
  Forall (fun c => is_surrogate c = false) s.
Proof.
  revert pos data. induction s as [|c s IH]; intros pos data; [constructor|].
  cbn [encode_utf8_from].
  destruct (is_surrogate c) eqn:Hc; [discriminate|].
  destruct (encode_utf8_from (S pos) s) as [e|d] eqn:E; [discriminate|].
  intros _. constructor; [exact Hc | exact (IH _ _ E)].
Qed.

Lemma sha256_inr (block h : str) :
  sha256 block = inr h ->
  exists data, encode_utf8 block = inr data /\ h = hexdigest data.
Proof.
  unfold sha256. destruct (encode_utf8 block) as [e|d]; [discriminate|].
  intros [= <-]. eauto.
Qed.

Lemma digest_plain (block h : str) :
  sha256 block = inr h ->
  encodable block /\ encodable h
  /\ strip (universal_newlines h) = h.
Proof.
  intros H. apply sha256_inr in H as (data & Hd & ->).
  pose proof (hexdigest_chars data) as Hhex.
  split; [now exists data|]. split.
  - apply (encode_utf8_from_plain _ 0%nat).
    eapply Forall_impl; [exact Hhex|]. intros c Hc.
    now apply hex_char_plain.
  - rewrite universal_newlines_plain.
    + apply strip_plain. eapply Forall_impl; [exact Hhex|].
      intros c Hc. now apply hex_char_plain.
    + eapply Forall_impl; [exact Hhex|]. intros c Hc.
      now apply hex_char_plain.
Qed.

(** ** Running [main] *)

Arguments py : simpl never.
Arguments sha256 : simpl never.
Arguments extract_current_social_events : simpl never.
Arguments encode_utf8 : simpl never.
Arguments strip : simpl never.
Arguments universal_newlines : simpl never.
Arguments differs : simpl never.

Ltac unfold_ops :=
  unfold main, before_writes, writes_and_report, report, fetch_html, requests_get,
         raise_for_status, read_text, write_text, set_github_output,
         path_exists, path_read_text, path_write_text, append_text,
         print, lift, raise, ret, bind in *.

(** Case analysis on a scrutinee that contains no other case analysis:
    the next thing the run depends on. *)
Ltac case_scrutinee :=
  match goal with
  | |- context [match ?x with _ => _ end] =>
      lazymatch x with
      | context [match _ with _ => _ end] => fail
      | _ => destruct x eqn:?
      end
  end.

Ltac world_simpl :=
  cbn [fst snd fs trace stdout http mkdir_error io_error GITHUB_OUTPUT
       add_event set_fs add_line loaded status_code reason url text] in *.

Ltac run := unfold_ops; world_simpl; repeat (case_scrutinee; world_simpl).

Lemma main_stages (get_text : str -> str) (w : World) :
  main get_text w =
  bind (before_writes get_text)
       (fun x => writes_and_report (fst (fst x)) (snd (fst x)) (snd x)) w.
Proof.
  unfold main, before_writes, bind.
  destruct (fetch_html URL w) as [[e|html] w1]; [reflexivity|].
  destruct (lift (extract_current_social_events get_text html) w1)
    as [[e|block] w2]; [reflexivity|].
  destruct (lift (sha256 block) w2) as [[e|h] w3]; [reflexivity|].
  destruct (read_text HASH_FILE w3) as [[e|prev] w4]; reflexivity.
Qed.

Lemma main_of_early_failure (get_text : str -> str) w e w1 :
  before_writes get_text w = (inl e, w1) -> main get_text w = (inl e, w1).
Proof. intros H. rewrite main_stages. unfold bind. now rewrite H. Qed.

Lemma main_of_compare (get_text : str -> str) w block h ch w1 :
  before_writes get_text w = (inr (block, h, ch), w1) ->
  main get_text w = writes_and_report block h ch w1.
Proof. intros H. rewrite main_stages. unfold bind. now rewrite H. Qed.

Lemma before_writes_frame (get_text : str -> str) w r w' :
  before_writes get_text w = (r, w') ->
  fs w' = fs w /\ stdout w' = stdout w /\ http w' = http w
  /\ mkdir_error w' = mkdir_error w /\ io_error w' = io_error w
  /\ GITHUB_OUTPUT w' = GITHUB_OUTPUT w.
Proof.
  run; intros [= <- <-]; world_simpl; auto 10.
Qed.

Lemma before_writes_trace (get_text : str -> str) w r w' :
  before_writes get_text w = (r, w') ->
  exists evs, trace w' = trace w ++ evs
              /\ Forall (fun ev => is_write ev = false) evs.
Proof.
  run; intros [= <- <-]; world_simpl; rewrite <- ?app_assoc;
    eexists; (split; [reflexivity|]); repeat constructor.
Qed.

(** *** Rules *)

Lemma hoare_bind {A B} (P : World -> Prop) (c : M A)
    (Q : exn + A -> World -> Prop) (k : A -> M B)
    (R : exn + B -> World -> Prop) :
  hoare P c Q ->
  (forall e w, Q (inl e) w -> R (inl e) w) ->
  (forall a, hoare (Q (inr a)) (k a) R) ->
  hoare P (bind c k) R.
Proof.
  intros Hc He Hk w Hw. specialize (Hc w Hw). unfold bind.
  destruct (c w) as [[e|a] w1]; cbn [fst snd] in *.
  - now apply He.
  - now apply Hk.
Qed.

Lemma hoare_weaken {A} (P P' : World -> Prop) (c : M A)
    (Q Q' : exn + A -> World -> Prop) :
  hoare P' c Q' ->
  (forall w, P w -> P' w) -> (forall r w, Q' r w -> Q r w) ->
  hoare P c Q.
Proof. intros H HP HQ w Hw. apply HQ, H, HP, Hw. Qed.

Lemma stable_bind {A B} (I : World -> Prop) (c : M A) (k : A -> M B) :
  stable I c -> (forall a, stable I (k a)) -> stable I (bind c k).
Proof.
  intros Hc Hk. apply (hoare_bind I c (fun _ => I)); auto.
Qed.

Lemma stable_ret {A} (I : World -> Prop) (a : A) : stable I (ret a).
Proof. intros w Hw. exact Hw. Qed.

Lemma stable_if {A} (I : World -> Prop) (b : bool) (c1 c2 : M A) :
  stable I c1 -> stable I c2 -> stable I (if b then c1 else c2).
Proof. now destruct b. Qed.

(** A post-condition on the result alone or on the world alone. *)
Lemma stable_result {A} (I : World -> Prop) (c : M A) w r w' :
  stable I c -> I w -> c w = (r, w') -> I w'.
Proof.
  intros H Hw E. specialize (H w Hw). now rewrite E in H.
Qed.

(** *** The operations on files *)

Ltac op_cases :=
  intros w; unfold set_github_output, write_text, path_write_text,
                   append_text, print, ret in *;
  world_simpl; repeat (case_scrutinee; world_simpl).

Lemma state_files_distinct : HASH_FILE <> TEXT_FILE.
Proof. intros H. vm_compute in H. discriminate H. Qed.

Lemma write_text_stdout (o : list str) (p c : str) :
  stable (fun w => stdout w = o) (write_text p c).
Proof. unfold stable, hoare. op_cases; auto. Qed.

Lemma set_github_output_stdout (o : list str) (n v : str) :
  stable (fun w => stdout w = o) (set_github_output n v).
Proof. unfold stable, hoare. op_cases; auto. Qed.

Lemma write_hash_state (h b : str) :
  encodable h -> stable (state_is h b) (write_text HASH_FILE h).
Proof.
  intros [d Hd]. pose proof state_files_distinct.
  unfold stable, hoare, state_is, sink_apart.
  op_cases; intros (Hh & Ht & Hs); try congruence;
    repeat split; try tauto; simplify_map_eq; auto.
Qed.

Lemma write_text_state (h b : str) :
  encodable b -> stable (state_is h b) (write_text TEXT_FILE b).
Proof.
  intros [d Hd]. pose proof state_files_distinct.
  unfold stable, hoare, state_is, sink_apart.
  op_cases; intros (Hh & Ht & Hs); try congruence;
    repeat split; try tauto; simplify_map_eq; auto.
Qed.

Lemma set_github_output_state (h b n v : str) :
  stable (state_is h b) (set_github_output n v).
Proof.
  unfold stable, hoare, state_is, sink_apart.
  op_cases; intros (Hh & Ht & Hs1 & Hs2);
    repeat split; auto;
    rewrite ?lookup_insert_ne by congruence; auto; congruence.
Qed.

Lemma print_state (h b line : str) : stable (state_is h b) (print line).
Proof. unfold stable, hoare, state_is, sink_apart. op_cases; auto. Qed.

Lemma write_text_trace (t0 : list event) (p c : str) :
  stable (trace_grows t0 is_write) (write_text p c).
Proof.
  unfold stable, hoare, trace_grows.
  op_cases; intros (evs & -> & Hev);
    (exists (evs ++ [EvWrite p c]); split;
     [now rewrite app_assoc | apply Forall_app; now repeat constructor]).
Qed.

Lemma set_github_output_trace (t0 : list event) (q : event -> bool)
    (n v : str) :
  (forall p c, q (EvAppend p c) = true) ->
  stable (trace_grows t0 q) (set_github_output n v).
Proof.
  intros Hq. unfold stable, hoare, trace_grows.
  op_cases; intros (evs & Ht & Hev); eauto;
    (eexists (evs ++ [_]); split;
     [rewrite Ht, <- app_assoc; reflexivity
     | apply Forall_app; split; [exact Hev | repeat constructor; apply Hq]]).
Qed.

Lemma print_trace (t0 : list event) (q : event -> bool) (line : str) :
  stable (trace_grows t0 q) (print line).
Proof. unfold stable, hoare, trace_grows. op_cases; auto. Qed.

(** *** The second stage of [main] *)

Ltac stable_steps :=
  repeat first
    [ apply stable_bind; [|intros ?]
    | apply stable_if
    | apply stable_ret ].

Lemma writes_and_report_state (block h : str) (ch : bool) :
  encodable h -> encodable block ->
  stable (state_is h block) (writes_and_report block h ch).
Proof.
  intros Hh Hb. unfold writes_and_report, report. stable_steps;
    auto using write_hash_state, write_text_state,
               set_github_output_state, print_state.
Qed.

Lemma writes_and_report_trace (block h : str) (ch : bool) (t0 : list event) :
  stable (trace_grows t0 is_write) (writes_and_report block h ch).
Proof.
  unfold writes_and_report, report. stable_steps;
    auto using write_text_trace, set_github_output_trace, print_trace.
Qed.

Lemma writes_and_report_stdout (block h : str) (ch : bool) (o : list str) :
  hoare (fun w => stdout w = o) (writes_and_report block h ch)
    (fun r w =>
       match r with
       | inl _ => stdout w = o
       | inr c =>
           c = 0%Z
           /\ stdout w
              = o ++ [if ch then py "CHANGED: Current social events updated."
                      else py "No change."]
       end).
Proof.
  unfold writes_and_report, report.
  repeat (eapply (hoare_bind _ _ (fun _ w => stdout w = o));
          [first [apply write_text_stdout | apply set_github_output_stdout]
          | auto | intros _]).
  intros w Hw. destruct ch; unfold bind, print, ret; world_simpl;
    now rewrite Hw.
Qed.

Lemma writes_and_report_ok (block h : str) (ch : bool) w c w' :
  writes_and_report block h ch w = (inr c, w') ->
  c = 0%Z
  /\ stdout w' = stdout w
                 ++ [if ch then py "CHANGED: Current social events updated."
                     else py "No change."].
Proof.
  intros E. pose proof (writes_and_report_stdout block h ch (stdout w) w
                          eq_refl) as H.
  now rewrite E in H.
Qed.

Lemma writes_and_report_raises (block h : str) (ch : bool) w e w' :
  writes_and_report block h ch w = (inl e, w') -> stdout w' = stdout w.
Proof.
  intros E. pose proof (writes_and_report_stdout block h ch (stdout w) w
                          eq_refl) as H.
  now rewrite E in H.
Qed.

Lemma main_ok (get_text : str -> str) w c w' :
  main get_text w = (inr c, w') ->
  c = 0%Z /\ exists line, stdout w' = stdout w ++ [line].
Proof.
  rewrite main_stages. unfold bind at 1.
  destruct (before_writes get_text w) as [[e|[[b h] ch]] w1] eqn:E;
    [discriminate|].
  apply before_writes_frame in E as (_ & <- & _). cbn [fst snd].
  intros H. apply writes_and_report_ok in H as [-> ->]. eauto.
Qed.

Lemma main_raises (get_text : str -> str) w e w' :
  main get_text w = (inl e, w') -> stdout w' = stdout w.
Proof.
  rewrite main_stages. unfold bind at 1.
  destruct (before_writes get_text w) as [[e'|[[b h] ch]] w1] eqn:E.
  - apply before_writes_frame in E as (_ & <- & _). now intros [= _ ->].
  - apply before_writes_frame in E as (_ & <- & _). cbn [fst snd].
    apply writes_and_report_raises.
Qed.

(** ** Claims on exit codes and failures *)

(** The exit code, case by case. *)
Lemma exit_code_cases (get_text : str -> str) (w : World) :
  (fst (script get_text w) = 0%Z \/ fst (script get_text w) = 1%Z)
  /\ (fst (script get_text w) = 0%Z <->
      mkdir_error w = None
      /\ exists c w1, main get_text (loaded w) = (inr c, w1))
  /\ (forall c w1,
        mkdir_error w = None -> main get_text (loaded w) = (inr c, w1) ->
        script get_text w = (0%Z, w1)
        /\ exists line, stdout w1 = stdout w ++ [line])
  /\ (forall e w1,
        mkdir_error w = None -> main get_text (loaded w) = (inl e, w1) ->
        fst (script get_text w) = 1%Z
        /\ stdout (snd (script get_text w))
           = stdout w ++ [py "ERROR: " ++ exn_str e])
  /\ (mkdir_error w <> None -> fst (script get_text w) = 1%Z).
Proof.
  unfold script. fold (loaded w).
  destruct (mkdir_error w) as [e0|] eqn:Em.
  - cbn [fst snd]. split; [now right|]. split; [|split; [|split]].
    + split; [discriminate | intros [H _]; discriminate H].
    + intros c w1 H. discriminate H.
    + intros e w1 H. discriminate H.
    + reflexivity.
  - destruct (main get_text (loaded w)) as [[e|c] w1] eqn:Hm.
    + pose proof (main_raises _ _ _ _ Hm) as Hout.
      cbn [fst snd]. split; [now right|]. split; [|split; [|split]].
      * split; [discriminate | intros (_ & c & w2 & H); discriminate H].
      * intros c w2 _ H. discriminate H.
      * intros e' w2 _ [= <- <-]. cbn. now rewrite Hout.
      * congruence.
    + destruct (main_ok _ _ _ _ Hm) as [-> [line Hout]].
      cbn [fst snd]. split; [now left|]. split; [|split; [|split]].
      * split; [eauto | reflexivity].
      * intros c w2 _ [= <- <-]. eauto.
      * intros e w2 _ H. discriminate H.
      * congruence.
Qed.

(** A failure before the comparison is what the script reports. *)
Lemma script_prints_failure (get_text : str -> str) (w : World) (e : exn) :
  mkdir_error w = None ->
  fst (before_writes get_text (loaded w)) = inl e ->
  fst (script get_text w) = 1%Z
  /\ stdout (snd (script get_text w)) = stdout w ++ [py "ERROR: " ++ exn_str e].
Proof.
  intros Hm Hb.
  destruct (before_writes get_text (loaded w)) as [r w1] eqn:E.
  cbn [fst] in Hb. subst r.
  destruct (exit_code_cases get_text w) as (_ & _ & _ & D & _).
  exact (D e w1 Hm (main_of_early_failure _ _ _ _ E)).
Qed.

Lemma before_writes_fetch_fails (get_text : str -> str) (w : World) (e : exn) :
  fst (fetch_html URL w) = inl e -> fst (before_writes get_text w) = inl e.
Proof.
  unfold before_writes, bind at 1.
  destruct (fetch_html URL w) as [[e'|html] w1]; [|discriminate].
  now intros [= ->].
Qed.

Lemma before_writes_extract_fails
    (get_text : str -> str) (w : World) (html : str) (e : exn) :
  fst (fetch_html URL w) = inr html ->
  extract_current_social_events get_text html = inl e ->
  fst (before_writes get_text w) = inl e.
Proof.
  unfold before_writes, bind at 1.
  destruct (fetch_html URL w) as [[e'|html'] w1]; [discriminate|].
  intros [= ->] He. unfold bind, lift. now rewrite He.
Qed.

Lemma extract_marker_missing (get_text : str -> str) (html : str) :
  contains START_MARKER (get_text html) = false
  \/ contains END_MARKER (get_text html) = false ->
  extract_current_social_events get_text html
  = inl (RuntimeError
           (py "Could not find markers. Needed 'Current social events' and 'Past events'.")).
Proof.
  unfold extract_current_social_events.
  intros [H | H]; rewrite H; [|rewrite orb_true_r]; reflexivity.
Qed.

Lemma fetch_html_client_error (w : World) (r : Response) :
  http w URL = inr r -> 400 <= status_code r < 500 ->
  fst (fetch_html URL w)
  = inl (HTTPError (dec (N.to_nat (status_code r)) ++ py " Client Error: "
                      ++ reason r ++ py " for url: " ++ url r)).
Proof.
  intros Hr [H1 H2].
  unfold fetch_html, bind, requests_get, raise_for_status, raise.
  cbn [fst snd]. rewrite Hr.
  apply N.leb_le in H1. apply N.ltb_lt in H2. now rewrite H1, H2.
Qed.

Lemma exn_str_carried (e : exn) : carries e (exn_str e).
Proof.
  unfold carries. destruct e as [m|m|m|m|m|m]; cbn [exn_str]; tauto.
Qed.

(** C9, amended.  The exit code is 0 or 1.  It is 0 exactly when the run
    completes: the state directory is there and [main] returns; this is
    so whether [changed] is true or false, and one line reporting the
    outcome has been printed.  When anything in [main] raises (fetching,
    extraction, hashing, state files, outputs) the code is 1 and the
    only line printed is "ERROR: " followed by the message the exception
    carries: the fixed sentence when a marker is missing, the status
    line when the server answers with a client error.  When the state
    directory cannot be created, which happens outside the [try], the
    code is 1 as well, but nothing is printed on standard output. *)
Theorem exit_code_policy (get_text : str -> str) (w : World) :
  (fst (script get_text w) = 0%Z \/ fst (script get_text w) = 1%Z)
  /\ (fst (script get_text w) = 0%Z <->
      mkdir_error w = None
      /\ exists c w1, main get_text (loaded w) = (inr c, w1))
  /\ (forall block h ch w1 c w2,
        mkdir_error w = None ->
        before_writes get_text (loaded w) = (inr (block, h, ch), w1) ->
        writes_and_report block h ch w1 = (inr c, w2) ->
        script get_text w = (0%Z, w2)
        /\ stdout w2
           = stdout w
               ++ [if ch then py "CHANGED: Current social events updated."
                   else py "No change."])
  /\ (forall e w1,
        mkdir_error w = None -> main get_text (loaded w) = (inl e, w1) ->
        fst (script get_text w) = 1%Z
        /\ stdout (snd (script get_text w))
           = stdout w ++ [py "ERROR: " ++ exn_str e]
        /\ carries e (exn_str e))
  /\ (mkdir_error w <> None ->
      fst (script get_text w) = 1%Z
      /\ stdout (snd (script get_text w)) = stdout w)
  /\ (forall html,
        mkdir_error w = None ->
        fst (fetch_html URL (loaded w)) = inr html ->
        contains START_MARKER (get_text html) = false
        \/ contains END_MARKER (get_text html) = false ->
        fst (script get_text w) = 1%Z
        /\ stdout (snd (script get_text w))
           = stdout w
               ++ [py "ERROR: Could not find markers. Needed 'Current social events' and 'Past events'."])
  /\ (forall r,
        mkdir_error w = None ->
        http w URL = inr r -> 400 <= status_code r < 500 ->
        fst (script get_text w) = 1%Z
        /\ stdout (snd (script get_text w))
           = stdout w
               ++ [py "ERROR: " ++ dec (N.to_nat (status_code r))
                      ++ py " Client Error: " ++ reason r
                      ++ py " for url: " ++ url r]).
Proof.
  destruct (exit_code_cases get_text w) as (A & B & C & D & E).
  split; [exact A|]. split; [exact B|].
  split; [|split; [|split; [|split]]].
  - intros block h ch w1 c w2 Hm Hb Hw.
    pose proof (main_of_compare _ _ _ _ _ _ Hb) as Hmain.
    rewrite Hw in Hmain. destruct (C c w2 Hm Hmain) as [Hs _].
    split; [exact Hs|].
    apply writes_and_report_ok in Hw as [_ ->].
    now destruct (before_writes_frame _ _ _ _ Hb) as (_ & -> & _).
  - intros e w1 Hm Hmain. destruct (D e w1 Hm Hmain) as [D1 D2].
    split; [exact D1|]. split; [exact D2|].
    apply exn_str_carried.
  - intros Hm. split; [exact (E Hm)|].
    unfold script. destruct (mkdir_error w); [reflexivity | now elim Hm].
  - intros html Hm Hf Hmiss.
    apply (script_prints_failure get_text w
             (RuntimeError
                (py "Could not find markers. Needed 'Current social events' and 'Past events'."))
             Hm).
    apply (before_writes_extract_fails _ _ html); [exact Hf|].
    now apply extract_marker_missing.
  - intros r Hm Hr Hst.
    apply (script_prints_failure get_text w
             (HTTPError (dec (N.to_nat (status_code r)) ++ py " Client Error: "
                           ++ reason r ++ py " for url: " ++ url r))
             Hm).
    apply before_writes_fetch_fails.
    now apply fetch_html_client_error.
Qed.

Lemma script_of_early_failure (get_text : str -> str) w e w1 :
  before_writes get_text (loaded w) = (inl e, w1) ->
  fst (script get_text w) = 1%Z
  /\ fs (snd (script get_text w)) = fs w
  /\ exists evs, trace (snd (script get_text w)) = trace w ++ evs
                 /\ Forall (fun ev => is_write ev = false) evs.
Proof.
  intros H. unfold script. fold (loaded w).
  destruct (mkdir_error w) as [e0|].
  - cbn. repeat split. exists [EvMkdir STATE_DIR]. now repeat constructor.
  - rewrite (main_of_early_failure _ _ _ _ H). cbn [fst snd].
    destruct (before_writes_frame _ _ _ _ H) as (Hfs & _).
    destruct (before_writes_trace _ _ _ _ H) as (evs & Htr & Hev).
    cbn. repeat split; [exact Hfs|].
    exists (EvMkdir STATE_DIR :: evs). split.
    + rewrite Htr. cbn. now rewrite <- app_assoc.
    + now constructor.
Qed.

(** C8.  A run that fails before the writes (the state directory cannot
    be created, the page cannot be fetched, a marker is not found, or
    anything else raises up to the comparison) exits with code 1 and
    leaves every file as it was: no write is even attempted. *)
Theorem failure_leaves_state (get_text : str -> str) (w : World) :
  (mkdir_error w <> None
   \/ (exists e, fst (fetch_html URL (loaded w)) = inl e)
   \/ (exists html e,
         fst (fetch_html URL (loaded w)) = inr html
         /\ extract_current_social_events get_text html = inl e)
   \/ (exists e, fst (before_writes get_text (loaded w)) = inl e)) ->
  fst (script get_text w) = 1%Z
  /\ fs (snd (script get_text w)) = fs w
  /\ fs (snd (script get_text w)) !! HASH_FILE = fs w !! HASH_FILE
  /\ fs (snd (script get_text w)) !! TEXT_FILE = fs w !! TEXT_FILE
  /\ exists evs, trace (snd (script get_text w)) = trace w ++ evs
                 /\ Forall (fun ev => is_write ev = false) evs.
Proof.
  intros H.
  assert (G : fst (script get_text w) = 1%Z
              /\ fs (snd (script get_text w)) = fs w
              /\ exists evs, trace (snd (script get_text w)) = trace w ++ evs
                             /\ Forall (fun ev => is_write ev = false) evs).
  { destruct H as [H | H].
    - unfold script. destruct (mkdir_error w); [|congruence].
      cbn. repeat split. exists [EvMkdir STATE_DIR]. now repeat constructor.
    - assert (exists e w1, before_writes get_text (loaded w) = (inl e, w1))
        as (e & w1 & Hb).
      { destruct H as [[e H] | [(html & e & Hf & He) | [e H]]].
        - unfold before_writes, bind.
          destruct (fetch_html URL (loaded w)) as [[e'|html] w1];
            [eauto | discriminate H].
        - unfold before_writes, bind at 1.
          destruct (fetch_html URL (loaded w)) as [[e'|html'] w1];
            [discriminate Hf|].
          cbn [fst] in Hf. injection Hf as ->.
          unfold bind, lift. rewrite He. eauto.
        - destruct (before_writes get_text (loaded w)) as [[e'|x] w1];
            [eauto | discriminate H]. }
      exact (script_of_early_failure _ _ _ _ Hb). }
  destruct G as (G1 & G2 & G3). rewrite G2. auto.
Qed.

(** C5.  When there is no digest file, every run that reaches the
    comparison computes [changed = true], whatever the block; the rest of
    the run is the one for a change, and if it completes it has printed
    the message for a change and exits with 0. *)
Theorem first_run_changed
    (get_text : str -> str) (w w1 : World) (block h : str) (ch : bool) :
  fs w !! HASH_FILE = None ->
  before_writes get_text (loaded w) = (inr (block, h, ch), w1) ->
  ch = true
  /\ main get_text (loaded w) = writes_and_report block h true w1
  /\ forall c w2,
       mkdir_error w = None ->
       writes_and_report block h true w1 = (inr c, w2) ->
       script get_text w = (0%Z, w2)
       /\ stdout w2
          = stdout w ++ [py "CHANGED: Current social events updated."].
Proof.
  intros Hnone Hb.
  assert (Hch : ch = true).
  { revert Hb. unfold loaded. run; try discriminate.
    intros [= _ _ <- _]. reflexivity. }
  subst ch.
  assert (Hmain : main get_text (loaded w) = writes_and_report block h true w1).
  { exact (main_of_compare _ _ _ _ _ _ Hb). }
  repeat split; [exact Hmain|..].
  - unfold script. fold (loaded w). rewrite H, Hmain, H0.
    apply writes_and_report_ok in H0 as [-> _]. reflexivity.
  - apply writes_and_report_ok in H0 as [_ ->].
    now destruct (before_writes_frame _ _ _ _ Hb) as (_ & -> & _).
Qed.

(** ** Claims on the persisted state *)

Lemma before_writes_inv (get_text : str -> str) w block h ch w1 :
  before_writes get_text w = (inr (block, h, ch), w1) ->
  exists html,
    fst (fetch_html URL w) = inr html
    /\ extract_current_social_events get_text html = inr block
    /\ sha256 block = inr h
    /\ ch = differs (match fs w !! HASH_FILE with
                     | Some c => Some (strip (universal_newlines c))
                     | None => None
                     end) h
    /\ trace w1
       = trace w ++ EvGet URL :: EvExists HASH_FILE
                 :: match fs w !! HASH_FILE with
                    | Some _ => [EvRead HASH_FILE]
                    | None => []
                    end.
Proof.
  run; try discriminate; intros ?; simplify_eq; world_simpl;
    eexists; repeat split; rewrite <- ?app_assoc;
    first [reflexivity | eassumption].
Qed.

Lemma script_fs (get_text : str -> str) w :
  fs (snd (script get_text w))
  = match mkdir_error w with
    | Some _ => fs w
    | None => fs (snd (main get_text (loaded w)))
    end.
Proof.
  unfold script. fold (loaded w). destruct (mkdir_error w); [reflexivity|].
  now destruct (main get_text (loaded w)) as [[e|c] w'].
Qed.

(** C7.  When the state files hold the digest and the block that the run
    computes again, the [changed] flag is false, and after the run both
    files hold what they held before (the output file being a file of its
    own), however the run ends. *)
Theorem unchanged_block_keeps_state
    (get_text : str -> str) (w w1 : World) (block h : str) (ch : bool) :
  fs w !! HASH_FILE = Some h ->
  fs w !! TEXT_FILE = Some block ->
  before_writes get_text (loaded w) = (inr (block, h, ch), w1) ->
  ch = false
  /\ (sink_apart w ->
      fs (snd (script get_text w)) !! HASH_FILE = fs w !! HASH_FILE
      /\ fs (snd (script get_text w)) !! TEXT_FILE = fs w !! TEXT_FILE).
Proof.
  intros Hh Ht Hb.
  destruct (before_writes_inv _ _ _ _ _ _ Hb) as (html & _ & _ & Hsha & Hch & _).
  destruct (digest_plain _ _ Hsha) as (Eb & Eh & Hplain).
  split.
  - rewrite Hch. world_simpl. rewrite Hh, Hplain.
    unfold differs. now rewrite bool_decide_eq_true_2.
  - intros Hs. rewrite script_fs, Hh, Ht.
    destruct (mkdir_error w); [now split|].
    rewrite (main_of_compare _ _ _ _ _ _ Hb).
    destruct (before_writes_frame _ _ _ _ Hb) as (Hfs & _ & _ & _ & _ & Hg).
    assert (Hst : state_is h block w1).
    { unfold state_is, sink_apart in *. rewrite Hfs, Hg. unfold loaded.
      world_simpl. tauto. }
    destruct (writes_and_report block h ch w1) as [r w2] eqn:E.
    pose proof (stable_result _ _ _ _ _
                  (writes_and_report_state block h ch Eh Eb) Hst E) as H.
    cbn [snd]. split; apply H.
Qed.

Lemma write_text_trace_exact (t : list event) (p c : str) :
  hoare (fun w => trace w = t) (write_text p c)
        (fun _ w => trace w = t ++ [EvWrite p c]).
Proof. unfold hoare. op_cases; intros ->; reflexivity. Qed.

Lemma write_hash_sets (h : str) :
  hoare sink_apart (write_text HASH_FILE h)
    (fun r w =>
       match r with
       | inr _ => fs w !! HASH_FILE = Some h /\ sink_apart w
       | inl _ => True
       end).
Proof.
  unfold hoare, sink_apart. op_cases; intros Hs; auto.
  split; [apply lookup_insert_eq | exact Hs].
Qed.

Lemma write_text_sets (h b : str) :
  hoare (fun w => fs w !! HASH_FILE = Some h /\ sink_apart w)
    (write_text TEXT_FILE b)
    (fun r w =>
       match r with
       | inr _ => state_is h b w
       | inl _ => True
       end).
Proof.
  pose proof state_files_distinct.
  unfold hoare, state_is, sink_apart. op_cases; intros (Hh & Hs); auto.
  repeat split; try tauto; simplify_map_eq; auto.
Qed.

(** A completed second stage has written the digest and the block, then
    only appended outputs. *)
Lemma report_trace (block : str) (ch : bool) (t0 : list event) :
  stable (trace_grows t0 is_append) (report block ch).
Proof.
  unfold report. stable_steps;
    auto using set_github_output_trace, print_trace.
Qed.

Lemma report_state (block h : str) (ch : bool) :
  stable (state_is h block) (report block ch).
Proof.
  unfold report. stable_steps;
    auto using set_github_output_state, print_state.
Qed.

(** A completed second stage has written the digest and the block, then
    only appended outputs. *)
Lemma writes_and_report_done (block h : str) (ch : bool) w c w' :
  writes_and_report block h ch w = (inr c, w') ->
  trace_grows (trace w ++ [EvWrite HASH_FILE h; EvWrite TEXT_FILE block])
              is_append w'
  /\ (sink_apart w -> state_is h block w').
Proof.
  intros E. split.
  - assert (H : hoare (fun w0 => trace w0 = trace w)
                  (writes_and_report block h ch)
                  (fun r w0 =>
                     match r with
                     | inr _ =>
                         trace_grows
                           (trace w ++ [EvWrite HASH_FILE h;
                                        EvWrite TEXT_FILE block])
                           is_append w0
                     | inl _ => True
                     end)).
    { unfold writes_and_report.
      eapply hoare_bind;
        [apply write_text_trace_exact | auto | intros ?; cbv beta].
      eapply hoare_bind;
        [apply write_text_trace_exact | auto | intros ?; cbv beta].
      eapply hoare_weaken;
        [apply (report_trace block ch
                  (trace w ++ [EvWrite HASH_FILE h; EvWrite TEXT_FILE block]))
        | |].
      - intros w0 Hw0. exists []. rewrite Hw0, <- app_assoc, app_nil_r.
        split; [reflexivity | constructor].
      - intros [e|x] w0 Hw0; [exact I | exact Hw0]. }
    specialize (H w eq_refl). now rewrite E in H.
  - intros Hs.
    assert (H : hoare sink_apart (writes_and_report block h ch)
                  (fun r w0 =>
                     match r with
                     | inr _ => state_is h block w0
                     | inl _ => True
                     end)).
    { unfold writes_and_report.
      eapply hoare_bind;
        [apply write_hash_sets | auto | intros ?; cbv beta].
      eapply hoare_bind;
        [apply write_text_sets | auto | intros ?; cbv beta].
      eapply hoare_weaken; [apply (report_state block h ch) | |].
      - auto.
      - intros [e|x] w0 Hw0; [exact I | exact Hw0]. }
    specialize (H w Hs). now rewrite E in H.
Qed.


(** ** Which state is read *)

Lemma before_writes_reads (get_text : str -> str) w r w1 :
  before_writes get_text w = (r, w1) ->
  exists evs,
    trace w1 = trace w ++ evs
    /\ Forall (fun ev => is_write ev = false) evs
    /\ (List.filter is_state_read evs = []
        \/ List.filter is_state_read evs = [EvExists HASH_FILE]
        \/ List.filter is_state_read evs
           = [EvExists HASH_FILE; EvRead HASH_FILE]).
Proof.
  run; intros ?; simplify_eq; world_simpl; rewrite <- ?app_assoc;
    eexists; (split; [reflexivity|]);
    (split; [repeat constructor | cbn; tauto]).
Qed.

Lemma is_write_not_read (evs : list event) :
  Forall (fun ev => is_write ev = true) evs ->
  Forall (fun ev => is_state_read ev = false) evs.
Proof.
  intros H. eapply Forall_impl; [exact H|].
  now intros [p|u|p|p|p c|p c].
Qed.

(** The operations of the first stage: the request, and the look at the
    digest file exactly when page, block and digest have been obtained. *)
Lemma before_writes_events (get_text : str -> str) w r w1 :
  before_writes get_text w = (r, w1) ->
  (trace w1 = trace w ++ [EvGet URL]
   /\ (exists e, r = inl e)
   /\ ~ (exists html block h,
           fst (fetch_html URL w) = inr html
           /\ extract_current_social_events get_text html = inr block
           /\ sha256 block = inr h))
  \/ (trace w1
      = trace w ++ EvGet URL :: EvExists HASH_FILE
                :: match fs w !! HASH_FILE with
                   | Some _ => [EvRead HASH_FILE]
                   | None => []
                   end
      /\ exists html block h,
           fst (fetch_html URL w) = inr html
           /\ extract_current_social_events get_text html = inr block
           /\ sha256 block = inr h).
Proof.
  run; intros ?; simplify_eq; world_simpl; rewrite <- ?app_assoc;
    first
      [ left; split; [reflexivity|]; split; [eauto|];
        intros (html & b & h & A & B & C); congruence
      | right; split; [reflexivity|]; do 3 eexists;
        split; [reflexivity|]; split; eassumption ].
Qed.

(** C3, amended.  The events of a run are reads followed by writes.  The
    first operation after the creation of the state directory is the
    request; persisted state is consulted exactly when the page has been
    fetched, the block extracted and the digest computed, and only the
    digest file is: the run checks that the file exists and, if so, reads
    it, once, before the comparison, which uses what was read, and before
    any write.  The text file is never read.  A run that completes has
    consulted the digest file. *)
Theorem only_digest_file_is_read (get_text : str -> str) (w : World) :
  exists reads writes,
    trace (snd (script get_text w)) = trace w ++ reads ++ writes
    /\ Forall (fun ev => is_write ev = false) reads
    /\ Forall (fun ev => is_state_read ev = false) writes
    /\ (List.filter is_state_read reads = []
        \/ List.filter is_state_read reads = [EvExists HASH_FILE]
        \/ List.filter is_state_read reads
           = [EvExists HASH_FILE; EvRead HASH_FILE])
    /\ (fst (script get_text w) = 0%Z ->
        List.filter is_state_read reads
        = EvExists HASH_FILE
            :: match fs w !! HASH_FILE with
               | Some _ => [EvRead HASH_FILE]
               | None => []
               end)
    /\ (reads = [EvMkdir STATE_DIR]
        \/ reads = [EvMkdir STATE_DIR; EvGet URL]
        \/ reads = EvMkdir STATE_DIR :: EvGet URL :: EvExists HASH_FILE
                     :: match fs w !! HASH_FILE with
                        | Some _ => [EvRead HASH_FILE]
                        | None => []
                        end)
    /\ (In (EvExists HASH_FILE) reads <->
        mkdir_error w = None
        /\ exists html block h,
             fst (fetch_html URL (loaded w)) = inr html
             /\ extract_current_social_events get_text html = inr block
             /\ sha256 block = inr h)
    /\ (forall block h ch w1,
          before_writes get_text (loaded w) = (inr (block, h, ch), w1) ->
          ch = differs (match fs w !! HASH_FILE with
                        | Some c => Some (strip (universal_newlines c))
                        | None => None
                        end) h).
Proof.
  assert (Hcmp : forall block h ch w1,
             before_writes get_text (loaded w) = (inr (block, h, ch), w1) ->
             ch = differs (match fs w !! HASH_FILE with
                           | Some c => Some (strip (universal_newlines c))
                           | None => None
                           end) h).
  { intros b h ch w1 Hb.
    now destruct (before_writes_inv _ _ _ _ _ _ Hb) as (_ & _ & _ & _ & E & _). }
  unfold script. fold (loaded w).
  destruct (mkdir_error w) as [e0|].
  { exists [EvMkdir STATE_DIR], []. cbn [fst snd].
    split; [reflexivity|]. split; [now repeat constructor|].
    split; [constructor|]. split; [cbn; tauto|]. split; [discriminate|].
    split; [now left|]. split; [|exact Hcmp].
    split; [intros [E|[]]; discriminate E | intros [E _]; discriminate E]. }
  destruct (main get_text (loaded w)) as [rm wm] eqn:Hmain.
  destruct (before_writes get_text (loaded w)) as [r w1] eqn:Hb.
  assert (Hwrites : exists writes,
             trace wm = trace w1 ++ writes
             /\ Forall (fun ev => is_write ev = true) writes
             /\ (forall c, rm = inr c -> exists x, r = inr x)).
  { destruct r as [e|[[b h] ch]].
    - rewrite (main_of_early_failure _ _ _ _ Hb) in Hmain.
      injection Hmain as <- <-. exists []. rewrite app_nil_r.
      split; [reflexivity|]. split; [constructor | discriminate].
    - rewrite (main_of_compare _ _ _ _ _ _ Hb) in Hmain.
      apply (stable_result _ _ _ _ _
               (writes_and_report_trace b h ch (trace w1))) in Hmain.
      + destruct Hmain as (evs & Ht & Hev). exists evs. eauto.
      + exists []. rewrite app_nil_r. now split. }
  destruct Hwrites as (writes & Hwm & Hwr & Hdone).
  assert (Htrace : forall reads,
             trace w1 = trace (loaded w) ++ reads ->
             trace (snd (match rm with
                         | inl e => (1%Z, add_line (py "ERROR: " ++ exn_str e) wm)
                         | inr code => (code, wm)
                         end))
             = trace w ++ (EvMkdir STATE_DIR :: reads) ++ writes).
  { intros reads Hr.
    assert (E : trace wm = trace w ++ (EvMkdir STATE_DIR :: reads) ++ writes).
    { rewrite Hwm, Hr. unfold loaded. world_simpl.
      now rewrite <- !app_assoc. }
    destruct rm; world_simpl; exact E. }
  destruct (before_writes_events _ _ _ _ Hb)
    as [(Ht & (e & ->) & Hnone) | (Ht & Hsome)].
  - exists [EvMkdir STATE_DIR; EvGet URL], writes.
    split; [exact (Htrace _ Ht)|].
    split; [now repeat constructor|].
    split; [now apply is_write_not_read|].
    split; [cbn; tauto|].
    split.
    { destruct rm as [em|c]; cbn [fst]; [discriminate|].
      destruct (Hdone c eq_refl) as [x Hx]. discriminate Hx. }
    split; [right; now left|]. split; [|exact Hcmp].
    split.
    + intros [E|[E|[]]]; discriminate E.
    + intros [_ H]. now elim Hnone.
  - exists (EvMkdir STATE_DIR :: EvGet URL :: EvExists HASH_FILE
              :: match fs w !! HASH_FILE with
                 | Some _ => [EvRead HASH_FILE]
                 | None => []
                 end), writes.
    split; [exact (Htrace _ Ht)|].
    split; [destruct (fs w !! HASH_FILE); now repeat constructor|].
    split; [now apply is_write_not_read|].
    split; [destruct (fs w !! HASH_FILE); cbn; tauto|].
    split; [intros _; now destruct (fs w !! HASH_FILE)|].
    split; [right; now right|]. split; [|exact Hcmp].
    split; [intros _; split; [reflexivity | exact Hsome]|].
    intros _. right. right. now left.
Qed.

(** ** The text file does not influence a run *)

Lemma agree_refl (w : World) : agree_but_text w w.
Proof. unfold agree_but_text. tauto. Qed.

Lemma agree_lookup (w1 w2 : World) (p : str) :
  agree_but_text w1 w2 -> p <> TEXT_FILE -> fs w1 !! p = fs w2 !! p.
Proof.
  intros (_ & _ & _ & _ & Hd & _) Hp.
  rewrite <- (lookup_delete_ne (fs w1) TEXT_FILE p) by congruence.
  rewrite <- (lookup_delete_ne (fs w2) TEXT_FILE p) by congruence.
  now rewrite Hd.
Qed.

Lemma agree_same (w1 w2 : World) :
  agree_but_text w1 w2 -> fs w1 = fs w2 -> w1 = w2.
Proof.
  destruct w1, w2. unfold agree_but_text. cbn.
  intros (-> & -> & -> & -> & _ & -> & ->) ->. reflexivity.
Qed.

Lemma agree_add_event (ev : event) (w1 w2 : World) :
  agree_but_text w1 w2 -> agree_but_text (add_event ev w1) (add_event ev w2).
Proof.
  unfold agree_but_text. cbn. intros (? & ? & ? & ? & ? & ? & ->). tauto.
Qed.

Lemma agree_add_line (line : str) (w1 w2 : World) :
  agree_but_text w1 w2 -> agree_but_text (add_line line w1) (add_line line w2).
Proof.
  unfold agree_but_text. cbn. intros (? & ? & ? & ? & ? & -> & ?). tauto.
Qed.

Lemma nonint_bind {A B} (c : M A) (k : A -> M B) :
  noninterfering c -> (forall a, noninterfering (k a)) ->
  noninterfering (bind c k).
Proof.
  intros Hc Hk w1 w2 Ha. destruct (Hc w1 w2 Ha) as [Hr Hw]. unfold bind.
  destruct (c w1) as [[e1|a1] w1'], (c w2) as [[e2|a2] w2'];
    cbn [fst snd] in *; try discriminate.
  - injection Hr as ->. split; [reflexivity | exact Hw].
  - injection Hr as ->. now apply Hk.
Qed.

Lemma nonint_pure {A} (r : exn + A) : noninterfering (fun w => (r, w)).
Proof. intros w1 w2 Ha. now split. Qed.

Lemma nonint_fetch_html (u : str) : noninterfering (fetch_html u).
Proof.
  unfold fetch_html. apply nonint_bind; [|intros r; apply nonint_bind].
  - intros w1 w2 Ha. unfold requests_get. cbn [fst snd]. split.
    + destruct Ha as (-> & _). reflexivity.
    + now apply agree_add_event.
  - unfold raise_for_status.
    repeat case_scrutinee; apply nonint_pure.
  - intros _. apply nonint_pure.
Qed.

Lemma nonint_read_text (p : str) :
  p <> TEXT_FILE -> noninterfering (read_text p).
Proof.
  intros Hp w1 w2 Ha. pose proof (agree_lookup _ _ p Ha Hp) as Hl.
  pose proof Ha as (_ & _ & Hio & _).
  unfold read_text, bind, path_exists, path_read_text, ret.
  destruct (fs w2 !! p) eqn:E2; world_simpl; rewrite ?Hl, ?E2; world_simpl.
  - rewrite Hio, ?Hl, ?E2.
    destruct (io_error w2 OpRead p); world_simpl;
      (split; [reflexivity | now do 2 apply agree_add_event]).
  - split; [reflexivity | now apply agree_add_event].
Qed.

Lemma nonint_write_text (p c : str) :
  p <> TEXT_FILE -> noninterfering (write_text p c).
Proof.
  intros Hp w1 w2 Ha. pose proof Ha as (H1 & H2 & Hio & H4 & Hd & H6 & H7).
  unfold write_text, path_write_text. world_simpl. rewrite Hio.
  destruct (io_error w2 OpWrite p);
    [split; [reflexivity | now apply agree_add_event]|].
  destruct (encode_utf8 c); cbn [fst snd];
    (split; [reflexivity|]);
    unfold agree_but_text; world_simpl;
    rewrite !(delete_insert_ne _ TEXT_FILE p) by congruence;
    rewrite Hd, H7; tauto.
Qed.

(** Once the text file has been written the two worlds are the same. *)
Lemma nonint_write_text_file {B} (c : str) (k : unit -> M B) :
  noninterfering (bind (write_text TEXT_FILE c) k).
Proof.
  intros w1 w2 Ha. pose proof Ha as (H1 & H2 & Hio & H4 & Hd & H6 & H7).
  unfold bind, write_text, path_write_text. world_simpl. rewrite Hio.
  destruct (io_error w2 OpWrite TEXT_FILE);
    [split; [reflexivity | now apply agree_add_event]|].
  assert (E : forall x,
             set_fs (<[TEXT_FILE := x]> (fs w1))
                    (add_event (EvWrite TEXT_FILE c) w1)
             = set_fs (<[TEXT_FILE := x]> (fs w2))
                      (add_event (EvWrite TEXT_FILE c) w2)).
  { intros x. apply agree_same.
    - unfold agree_but_text. world_simpl.
      rewrite !delete_insert_eq, Hd, H7. tauto.
    - world_simpl.
      rewrite <- (insert_delete_eq (fs w1)), <- (insert_delete_eq (fs w2)).
      now rewrite Hd. }
  destruct (encode_utf8 c); rewrite E;
    (split; [reflexivity | apply agree_refl]).
Qed.

Lemma nonint_before_writes (get_text : str -> str) :
  noninterfering (before_writes get_text).
Proof.
  pose proof state_files_distinct.
  unfold before_writes.
  repeat first
    [ apply nonint_pure
    | apply nonint_fetch_html
    | apply nonint_read_text; congruence
    | apply nonint_bind; [|intros ?] ].
Qed.

Lemma nonint_main (get_text : str -> str) : noninterfering (main get_text).
Proof.
  pose proof state_files_distinct.
  unfold main.
  repeat first
    [ apply nonint_pure
    | apply nonint_fetch_html
    | apply nonint_read_text; congruence
    | apply nonint_write_text_file
    | apply nonint_write_text; congruence
    | apply nonint_bind; [|intros ?] ].
Qed.

(** C10.  Two runs that start in worlds differing at most in the text file
    end with the same exit code, the same lines printed, the same
    operations performed (among them the outputs emitted), and in worlds
    that again differ at most in the text file; and up to the comparison
    they compute the same block, digest and [changed] flag. *)
Theorem text_file_does_not_interfere
    (get_text : str -> str) (w1 w2 : World) :
  agree_but_text w1 w2 ->
  fst (script get_text w1) = fst (script get_text w2)
  /\ agree_but_text (snd (script get_text w1)) (snd (script get_text w2))
  /\ stdout (snd (script get_text w1)) = stdout (snd (script get_text w2))
  /\ trace (snd (script get_text w1)) = trace (snd (script get_text w2))
  /\ fst (before_writes get_text (loaded w1))
     = fst (before_writes get_text (loaded w2)).
Proof.
  intros Ha.
  assert (Hl : agree_but_text (loaded w1) (loaded w2))
    by now apply agree_add_event.
  assert (G : fst (script get_text w1) = fst (script get_text w2)
              /\ agree_but_text (snd (script get_text w1))
                                (snd (script get_text w2))).
  { unfold script. fold (loaded w1) (loaded w2).
    pose proof Ha as (_ & -> & _).
    destruct (mkdir_error w2); [now split|].
    destruct (nonint_main get_text _ _ Hl) as [Hr Hw].
    destruct (main get_text (loaded w1)) as [[e1|c1] w1'],
             (main get_text (loaded w2)) as [[e2|c2] w2'];
      cbn [fst snd] in *; try discriminate.
    - injection Hr as ->. split; [reflexivity | now apply agree_add_line].
    - injection Hr as ->. now split. }
  destruct G as [G1 G2]. pose proof G2 as (_ & _ & _ & _ & _ & G3 & G4).
  split; [exact G1|]. split; [exact G2|]. split; [exact G3|].
  split; [exact G4|].
  apply (nonint_before_writes get_text _ _ Hl).
Qed.

(** ** The claims on concrete runs *)

(** Conjunctions of closed equations, each settled by evaluation. *)
Ltac evaluate :=
  repeat match goal with |- _ /\ _ => split end;
  vm_compute; reflexivity.

Lemma first_run_changed_witness :
  fs (fresh_world sample_page) !! HASH_FILE = None
  /\ before_writes get_text_plain (loaded (fresh_world sample_page))
     = (inr (sample_block, sample_digest, true),
        snd (before_writes get_text_plain (loaded (fresh_world sample_page))))
  /\ (true = true
      /\ main get_text_plain (loaded (fresh_world sample_page))
         = writes_and_report sample_block sample_digest true
             (snd (before_writes get_text_plain
                     (loaded (fresh_world sample_page))))
      /\ forall c w2,
           mkdir_error (fresh_world sample_page) = None ->
           writes_and_report sample_block sample_digest true
             (snd (before_writes get_text_plain
                     (loaded (fresh_world sample_page))))
           = (inr c, w2) ->
           script get_text_plain (fresh_world sample_page) = (0%Z, w2)
           /\ stdout w2
              = stdout (fresh_world sample_page)
                  ++ [py "CHANGED: Current social events updated."]).
Proof.
  assert (H1 : fs (fresh_world sample_page) !! HASH_FILE = None)
    by reflexivity.
  assert (H2 : before_writes get_text_plain (loaded (fresh_world sample_page))
               = (inr (sample_block, sample_digest, true),
                  snd (before_writes get_text_plain
                         (loaded (fresh_world sample_page)))))
    by (vm_compute; reflexivity).
  exact (conj H1 (conj H2
           (first_run_changed get_text_plain (fresh_world sample_page)
              _ sample_block sample_digest true H1 H2))).
Defined.


Lemma unchanged_block_keeps_state_witness :
  fs (second_world sample_page) !! HASH_FILE = Some sample_digest
  /\ fs (second_world sample_page) !! TEXT_FILE = Some sample_block
  /\ before_writes get_text_plain (loaded (second_world sample_page))
     = (inr (sample_block, sample_digest, false),
        snd (before_writes get_text_plain (loaded (second_world sample_page))))
  /\ false = false
  /\ (sink_apart (second_world sample_page) ->
      fs (snd (script get_text_plain (second_world sample_page))) !! HASH_FILE
      = fs (second_world sample_page) !! HASH_FILE
      /\ fs (snd (script get_text_plain (second_world sample_page)))
           !! TEXT_FILE
         = fs (second_world sample_page) !! TEXT_FILE).
Proof.
  assert (H1 : fs (second_world sample_page) !! HASH_FILE = Some sample_digest)
    by (vm_compute; reflexivity).
  assert (H2 : fs (second_world sample_page) !! TEXT_FILE = Some sample_block)
    by (vm_compute; reflexivity).
  assert (H3 : before_writes get_text_plain (loaded (second_world sample_page))
               = (inr (sample_block, sample_digest, false),
                  snd (before_writes get_text_plain
                         (loaded (second_world sample_page)))))
    by (vm_compute; reflexivity).
  exact (conj H1 (conj H2 (conj H3
           (unchanged_block_keeps_state get_text_plain
              (second_world sample_page) _ sample_block sample_digest false
              H1 H2 H3)))).
Defined.

Lemma failure_leaves_state_witness :
  (exists html e,
     fst (fetch_html URL (loaded missing_end_world)) = inr html
     /\ extract_current_social_events get_text_plain html = inl e)
  /\ fst (script get_text_plain missing_end_world) = 1%Z
  /\ fs (snd (script get_text_plain missing_end_world)) = fs missing_end_world
  /\ fs (snd (script get_text_plain missing_end_world)) !! HASH_FILE
     = fs missing_end_world !! HASH_FILE
  /\ fs (snd (script get_text_plain missing_end_world)) !! TEXT_FILE
     = fs missing_end_world !! TEXT_FILE
  /\ exists evs,
       trace (snd (script get_text_plain missing_end_world))
       = trace missing_end_world ++ evs
       /\ Forall (fun ev => is_write ev = false) evs.
Proof.
  assert (H : exists html e,
             fst (fetch_html URL (loaded missing_end_world)) = inr html
             /\ extract_current_social_events get_text_plain html = inl e).
  { exists (py "Current social events" ++ [NL] ++ py "Concert"),
           (RuntimeError
              (py "Could not find markers. Needed 'Current social events' and 'Past events'.")).
    split; vm_compute; reflexivity. }
  split; [exact H|].
  apply (failure_leaves_state get_text_plain missing_end_world).
  right. right. left. exact H.
Defined.

Lemma text_file_does_not_interfere_witness :
  agree_but_text (second_world sample_page) (tampered_world sample_page)
  /\ fs (second_world sample_page) !! TEXT_FILE
     <> fs (tampered_world sample_page) !! TEXT_FILE
  /\ fst (script get_text_plain (second_world sample_page))
     = fst (script get_text_plain (tampered_world sample_page))
  /\ stdout (snd (script get_text_plain (second_world sample_page)))
     = stdout (snd (script get_text_plain (tampered_world sample_page)))
  /\ trace (snd (script get_text_plain (second_world sample_page)))
     = trace (snd (script get_text_plain (tampered_world sample_page))).
Proof.
  assert (H : agree_but_text (second_world sample_page)
                             (tampered_world sample_page)).
  { unfold agree_but_text. evaluate. }
  split; [exact H|].
  split; [intros E; vm_compute in E; discriminate E|].
  destruct (text_file_does_not_interfere get_text_plain _ _ H)
    as (G1 & _ & G3 & G4 & _).
  split; [exact G1|]. split; [exact G3 | exact G4].
Defined.

(** C3, as stated, fails: a completed run that starts with both state
    files present begins with the request, then consults the digest file
    and nothing else; the text file is not read.  And a run whose request
    fails reads no state at all, although both files are there. *)
Lemma text_file_is_not_read :
  fs (second_world sample_page) !! HASH_FILE = Some sample_digest
  /\ fs (second_world sample_page) !! TEXT_FILE = Some sample_block
  /\ fst (script get_text_plain (second_world sample_page)) = 0%Z
  /\ trace (snd (script get_text_plain (second_world sample_page)))
     = [EvMkdir STATE_DIR; EvGet URL;
        EvExists HASH_FILE; EvRead HASH_FILE;
        EvWrite HASH_FILE sample_digest; EvWrite TEXT_FILE sample_block]
       ++ map (EvAppend (py "/tmp/out")) (run_outputs sample_block false)
  /\ List.filter is_state_read
       (trace (snd (script get_text_plain (second_world sample_page))))
     = [EvExists HASH_FILE; EvRead HASH_FILE]
  /\ ~ In (EvRead TEXT_FILE)
          (trace (snd (script get_text_plain (second_world sample_page))))
  /\ ~ In (EvExists TEXT_FILE)
          (trace (snd (script get_text_plain (second_world sample_page))))
  /\ fs not_found_world !! HASH_FILE = Some sample_digest
  /\ fs not_found_world !! TEXT_FILE = Some sample_block
  /\ trace (snd (script get_text_plain not_found_world))
     = [EvMkdir STATE_DIR; EvGet URL].
Proof.
  split; [vm_compute; reflexivity|].
  split; [vm_compute; reflexivity|].
  split; [vm_compute; reflexivity|].
  split; [vm_compute; reflexivity|].
  split; [vm_compute; reflexivity|].
  split; [intros E; vm_compute in E;
          repeat (destruct E as [E | E]; [discriminate E|]); exact E|].
  split; [intros E; vm_compute in E;
          repeat (destruct E as [E | E]; [discriminate E|]); exact E|].
  split; [vm_compute; reflexivity|].
  split; vm_compute; reflexivity.
Qed.

(** C9, as stated, fails: when the state directory cannot be created the
    exit code is 1, but no reason is printed on standard output. *)
Lemma state_dir_failure_prints_nothing :
  mkdir_error no_state_dir_world
  = Some (OSError (py "[Errno 13] Permission denied: '.state'"))
  /\ fst (script get_text_plain no_state_dir_world) = 1%Z
  /\ stdout (snd (script get_text_plain no_state_dir_world)) = [].
Proof. evaluate. Qed.

Lemma exit_code_policy_witness :
  fst (script get_text_plain not_found_world) = 1%Z
  /\ stdout (snd (script get_text_plain not_found_world))
     = [py "ERROR: 404 Client Error: Not Found for url: https://uni-freiburg.de/en/studies/during-your-studies/apis/"]
  /\ fst (script get_text_plain missing_end_world) = 1%Z
  /\ stdout (snd (script get_text_plain missing_end_world))
     = [py "ERROR: Could not find markers. Needed 'Current social events' and 'Past events'."].
Proof.
  destruct (exit_code_policy get_text_plain not_found_world)
    as (_ & _ & _ & _ & _ & _ & Hstatus).
  destruct (exit_code_policy get_text_plain missing_end_world)
    as (_ & _ & _ & _ & _ & Hmarker & _).
  destruct (Hstatus (mkResponse 404 (py "Not Found") URL []) eq_refl eq_refl)
    as [A1 A2]; [vm_compute; split; [discriminate | reflexivity]|].
  destruct (Hmarker (py "Current social events" ++ [NL] ++ py "Concert")
              eq_refl)
    as [B1 B2]; [vm_compute; reflexivity | right; vm_compute; reflexivity|].
  split; [exact A1|]. split; [exact A2|]. split; [exact B1 | exact B2].
Defined.

(** The scenario of the specification's section 8: on the first run the
    block is extracted, reported as changed and persisted; on the second
    run nothing changes. *)
Example first_and_second_run :
  fst (script get_text_plain (fresh_world sample_page)) = 0%Z
  /\ stdout (snd (script get_text_plain (fresh_world sample_page)))
     = [py "CHANGED: Current social events updated."]
  /\ fst (script get_text_plain (second_world sample_page)) = 0%Z
  /\ stdout (snd (script get_text_plain (second_world sample_page)))
     = [py "No change."]
  /\ fs (snd (script get_text_plain (second_world sample_page))) !! HASH_FILE
     = Some sample_digest
  /\ fs (snd (script get_text_plain (second_world sample_page))) !! TEXT_FILE
     = Some sample_block.
Proof. evaluate. Qed.

(** Failures: a 404 is printed and exits with 1; a state directory that
    cannot be created exits with 1 and prints nothing. *)
Example failing_runs :
  script get_text_plain not_found_world
  = (1%Z,
     add_line (py "ERROR: 404 Client Error: Not Found for url: " ++ URL)
       (add_event (EvGet URL) (loaded not_found_world)))
  /\ fst (script get_text_plain no_state_dir_world) = 1%Z
  /\ stdout (snd (script get_text_plain no_state_dir_world)) = [].
Proof. evaluate. Qed.

(** Known answers: the first and last round constants, the first word of
    the initial hash value, and the digests of the empty string and of
    "abc". *)
Example sha256_known_answers :
  nth 0 SHA256.K 0 = 0x428a2f98
  /\ nth 63 SHA256.K 0 = 0xc67178f2
  /\ nth 0 SHA256.H0 0 = 0x6a09e667
  /\ sha256 []
     = inr (py "e3b0c44298fc1c149afbf4c8996fb92427ae41e4649b934ca495991b7852b855")
  /\ sha256 (py "abc")
     = inr (py "ba7816bf8f01cfea414140de5dae2223b00361a396177a9cb410ff61f20015ad").
Proof. evaluate. Qed.

(** * Further properties of the code *)

(** ** The whitespace normalisation of the extractor *)

Lemma normalize_block_spec (s : str) : normalize_block s = spec_normalize s.
Proof. apply normalisation_refines. Qed.

Lemma extract_normalizes (get_text : str -> str) (html block : str) :
  extract_current_social_events get_text html = inr block ->
  exists mid, block = normalize_block mid.
Proof.
  rewrite extract_cases.
  destruct (find START_MARKER (get_text html)) as [i|]; [|discriminate].
  destruct (find END_MARKER (get_text html)) as [j|]; [|discriminate].
  destruct (find END_MARKER _) as [k|]; [|discriminate].
  intros [= <-]. eexists. symmetry. apply normalize_block_spec.
Qed.

Lemma hspace_run_reaches_nl (r : str) (c : N) :
  is_hspace c = true -> hspace_then_nl r = true ->
  exists d, is_hspace d = true /\ occurs [d; NL] (c :: r).
Proof.
  revert c. induction r as [|e r IH]; intros c Hc; [discriminate|].
  cbn [hspace_then_nl]. intros H. apply orb_true_iff in H as [H | H].
  - apply N.eqb_eq in H. subst e. exists c. split; [exact Hc|].
    exists 0%nat, [], r. now split.
  - apply andb_true_iff in H as [He Hr].
    destruct (IH e He Hr) as (d & Hd & j & Hj).
    exists d. split; [exact Hd|]. exists (S j). now apply occurs_at_S.
Qed.

Lemma drop_hspace_fixed (x : str) :
  (forall c, is_hspace c = true -> ~ occurs [c; NL] x) ->
  spec_drop_trailing_hspace x = x.
Proof.
  induction x as [|c r IH]; intros H; [reflexivity|].
  cbn [spec_drop_trailing_hspace].
  destruct (is_hspace c && hspace_then_nl r) eqn:E.
  - apply andb_true_iff in E as [Hc Hr].
    destruct (hspace_run_reaches_nl r c Hc Hr) as (d & Hd & Ho).
    now destruct (H d Hd).
  - f_equal. apply IH. intros d Hd [j Hj]. apply (H d Hd).
    exists (S j). now apply occurs_at_S.
Qed.

Lemma collapse_fixed (x : str) :
  ~ occurs [NL; NL; NL] x -> spec_collapse_line_breaks x = x.
Proof.
  induction x as [|c r IH]; intros H; [reflexivity|].
  cbn [spec_collapse_line_breaks].
  destruct ((c =? NL) && startswith [NL; NL] r) eqn:E.
  - exfalso. apply H. exists 0%nat. apply occurs_at_0.
    apply andb_true_iff in E as [Hc Hr]. apply N.eqb_eq in Hc. subst c.
    change (startswith [NL; NL; NL] (NL :: r))
      with ((NL =? NL) && startswith [NL; NL] r).
    now rewrite Hr.
  - f_equal. apply IH. intros [j Hj]. apply H.
    exists (S j). now apply occurs_at_S.
Qed.

Lemma spec_normalize_idemp (s : str) :
  spec_normalize (spec_normalize s) = spec_normalize s.
Proof.
  unfold spec_normalize at 1.
  rewrite drop_hspace_fixed by (intros c; apply spec_normalize_clean).
  rewrite collapse_fixed by apply spec_normalize_no_blank_run.
  apply spec_normalize_trimmed.
Qed.

(** X1.  The block the extractor returns is a fixed point of its
    normalisation: normalising it again gives the same block. *)
Theorem extracted_block_is_normal
    (get_text : str -> str) (html block : str) :
  extract_current_social_events get_text html = inr block ->
  normalize_block block = block.
Proof.
  intros H. destruct (extract_normalizes _ _ _ H) as [mid ->].
  rewrite !normalize_block_spec. apply spec_normalize_idemp.
Qed.

Lemma extracted_block_is_normal_witness :
  extract_current_social_events get_text_plain sample_page = inr sample_block
  /\ normalize_block sample_block = sample_block.
Proof.
  assert (H : extract_current_social_events get_text_plain sample_page
              = inr sample_block) by reflexivity.
  exact (conj H (extracted_block_is_normal get_text_plain sample_page
                   sample_block H)).
Defined.

Lemma hspace_then_nl_run (h b : str) :
  Forall (fun c => is_hspace c = true) h ->
  hspace_then_nl (h ++ NL :: b) = true.
Proof.
  induction 1 as [|c h Hc _ IH]; [reflexivity|].
  cbn [app hspace_then_nl]. now rewrite Hc, IH, orb_true_r.
Qed.

Lemma hspace_then_nl_blanks (a h b : str) :
  Forall (fun c => is_hspace c = true) h ->
  hspace_then_nl (a ++ h ++ NL :: b) = hspace_then_nl (a ++ NL :: b).
Proof.
  intros Hh. induction a as [|c a IH].
  - cbn [app]. now rewrite hspace_then_nl_run.
  - cbn [app hspace_then_nl]. now rewrite IH.
Qed.

Lemma drop_hspace_blanks (a h b : str) :
  Forall (fun c => is_hspace c = true) h ->
  spec_drop_trailing_hspace (a ++ h ++ NL :: b)
  = spec_drop_trailing_hspace (a ++ NL :: b).
Proof.
  intros Hh. induction a as [|c a IH].
  - cbn [app]. induction Hh as [|d h Hd Hh IHh]; [reflexivity|].
    cbn [app spec_drop_trailing_hspace].
    now rewrite Hd, (hspace_then_nl_run h b Hh).
  - cbn [app spec_drop_trailing_hspace].
    now rewrite hspace_then_nl_blanks, IH.
Qed.

(** X2.  Spaces and tabs at the end of a line do not change the block:
    with or without them before a line break, the normalisation gives the
    same result. *)
Theorem trailing_blanks_ignored (a h b : str) :
  Forall (fun c => is_hspace c = true) h ->
  normalize_block (a ++ h ++ NL :: b) = normalize_block (a ++ NL :: b).
Proof.
  intros Hh. rewrite !normalize_block_spec. unfold spec_normalize.
  now rewrite drop_hspace_blanks.
Qed.

Lemma trailing_blanks_ignored_witness :
  Forall (fun c => is_hspace c = true) [SPACE; TAB; SPACE]
  /\ normalize_block (py "Concert" ++ [SPACE; TAB; SPACE] ++ NL :: py "Friday")
     = normalize_block (py "Concert" ++ NL :: py "Friday").
Proof.
  assert (H : Forall (fun c => is_hspace c = true) [SPACE; TAB; SPACE])
    by (repeat constructor).
  exact (conj H (trailing_blanks_ignored (py "Concert") [SPACE; TAB; SPACE]
                   (py "Friday") H)).
Defined.

Lemma hspace_then_nl_before_nl (a y y' : str) :
  hspace_then_nl (a ++ NL :: y) = hspace_then_nl (a ++ NL :: y').
Proof.
  induction a as [|c a IH]; [reflexivity|].
  cbn [app hspace_then_nl]. now rewrite IH.
Qed.

Lemma drop_hspace_before_nl (a : str) :
  exists a', forall y,
    spec_drop_trailing_hspace (a ++ NL :: y)
    = a' ++ NL :: spec_drop_trailing_hspace y.
Proof.
  induction a as [|c a [a' IH]].
  - exists []. intros y. reflexivity.
  - destruct (is_hspace c && hspace_then_nl (a ++ [NL])) eqn:E.
    + exists a'. intros y. cbn [app spec_drop_trailing_hspace].
      now rewrite (hspace_then_nl_before_nl a y []), E.
    + exists (c :: a'). intros y. cbn [app spec_drop_trailing_hspace].
      now rewrite (hspace_then_nl_before_nl a y []), E, IH.
Qed.

Lemma collapse_extra_line (a x : str) :
  spec_collapse_line_breaks (a ++ NL :: NL :: NL :: x)
  = spec_collapse_line_breaks (a ++ NL :: NL :: x).
Proof.
  induction a as [|c a IH]; [reflexivity|].
  cbn [app spec_collapse_line_breaks]. rewrite IH.
  replace (startswith [NL; NL] (a ++ NL :: NL :: NL :: x))
    with (startswith [NL; NL] (a ++ NL :: NL :: x)); [reflexivity|].
  destruct a as [|d [|e a]]; reflexivity.
Qed.

(** X3.  A further empty line in a run of empty lines does not change the
    block: three line breaks in a row normalise like two. *)
Theorem extra_empty_line_ignored (a b : str) :
  normalize_block (a ++ NL :: NL :: NL :: b)
  = normalize_block (a ++ NL :: NL :: b).
Proof.
  rewrite !normalize_block_spec. unfold spec_normalize.
  destruct (drop_hspace_before_nl a) as [a' Ha].
  rewrite !Ha.
  change (spec_drop_trailing_hspace (NL :: NL :: b))
    with (NL :: NL :: spec_drop_trailing_hspace b).
  change (spec_drop_trailing_hspace (NL :: b))
    with (NL :: spec_drop_trailing_hspace b).
  now rewrite collapse_extra_line.
Qed.

Lemma hspace_then_nl_no_nl (s : str) :
  ~ In NL s -> hspace_then_nl s = false.
Proof.
  induction s as [|c r IH]; [reflexivity|].
  intros H. cbn [hspace_then_nl].
  rewrite IH by (intros Hr; apply H; now right).
  rewrite andb_false_r, orb_false_r. apply N.eqb_neq.
  intros ->. apply H. now left.
Qed.

(** X4.  A text without line break is only trimmed: the blanks inside it
    are kept as they are. *)
Theorem single_line_only_trimmed (s : str) :
  ~ In NL s -> normalize_block s = strip s.
Proof.
  intros H. rewrite normalize_block_spec, <- spec_normalize_strip.
  assert (Hs : ~ In NL (strip s)).
  { destruct (strip_split s) as (l & t & Hs & _). intros Hin. apply H.
    rewrite Hs. apply in_or_app. right. apply in_or_app. now left. }
  unfold spec_normalize. remember (strip s) as x eqn:Ex.
  assert (Hi : strip x = x) by (subst x; apply strip_idemp).
  clear Ex. rename Hs into Hx.
  assert (E1 : spec_drop_trailing_hspace x = x).
  { clear Hi. induction x as [|c r IH]; [reflexivity|].
    cbn [spec_drop_trailing_hspace].
    rewrite (hspace_then_nl_no_nl r) by (intros Hr; apply Hx; now right).
    rewrite andb_false_r. f_equal. apply IH. intros Hr. apply Hx. now right. }
  assert (E2 : spec_collapse_line_breaks x = x).
  { clear E1 Hi. induction x as [|c r IH]; [reflexivity|].
    cbn [spec_collapse_line_breaks].
    replace (c =? NL) with false
      by (symmetry; apply N.eqb_neq; intros ->; apply Hx; now left).
    cbn [andb]. f_equal. apply IH. intros Hr. apply Hx. now right. }
  rewrite E1, E2. exact Hi.
Qed.

Lemma single_line_only_trimmed_witness :
  ~ In NL (py "  Jazz   night ")
  /\ normalize_block (py "  Jazz   night ") = strip (py "  Jazz   night ").
Proof.
  assert (H : ~ In NL (py "  Jazz   night ")).
  { intros E. vm_compute in E.
    repeat (destruct E as [E | E]; [discriminate E|]). exact E. }
  exact (conj H (single_line_only_trimmed (py "  Jazz   night ") H)).
Defined.

(** ** The digest *)

Lemma encode_utf8_from_error (s : str) (pos : nat) (e : exn) :
  encode_utf8_from pos s = inl e -> exists m, e = UnicodeEncodeError m.
Proof.
  revert pos. induction s as [|c s IH]; intros pos; [discriminate|].
  cbn [encode_utf8_from]. destruct (is_surrogate c); [intros [= <-]; eauto|].
  destruct (encode_utf8_from (S pos) s) as [e'|d] eqn:E; [|discriminate].
  intros [= <-]. exact (IH _ E).
Qed.

(** X5.  The digest of a string exists exactly when the string has no
    surrogate code point, and is then 64 lowercase hexadecimal digits;
    otherwise hashing raises [UnicodeEncodeError] (from the encoder). *)
Theorem sha256_shape (s : str) :
  ((exists h, sha256 s = inr h) <-> no_surrogate s)
  /\ (forall h, sha256 s = inr h ->
                length h = 64%nat /\ Forall hex_char h)
  /\ (forall e, sha256 s = inl e -> exists m, e = UnicodeEncodeError m).
Proof.
  unfold sha256, encode_utf8, no_surrogate.
  destruct (encode_utf8_from 0 s) as [e|data] eqn:E.
  - split; [|split].
    + split; [intros [h H]; discriminate H|].
      intros H. destruct (encode_utf8_from_plain s 0%nat H) as [d Hd].
      congruence.
    + intros h H. discriminate H.
    + intros e' [= <-]. exact (encode_utf8_from_error _ _ _ E).
  - split; [|split].
    + split; [intros _; exact (encode_utf8_from_ok _ _ _ E) | eauto].
    + intros h [= <-]. split; [apply hexdigest_length | apply hexdigest_chars].
    + intros e H. discriminate H.
Qed.

(** ** Fetching *)

(** X6.  [fetch_html] makes exactly one request and changes nothing else.
    It returns the body exactly when the request yields a response whose
    status is not in 400..599 (a 3xx or 1xx response is returned like a
    2xx one); a status in 400..599 raises [HTTPError], and an exception
    of the request is passed on. *)
Theorem fetch_html_outcome (u : str) (w : World) :
  snd (fetch_html u w) = add_event (EvGet u) w
  /\ (forall body,
        fst (fetch_html u w) = inr body <->
        exists r, http w u = inr r
                  /\ (status_code r < 400 \/ 600 <= status_code r)
                  /\ text r = body)
  /\ (forall r, http w u = inr r ->
                400 <= status_code r < 600 ->
                exists m, fst (fetch_html u w) = inl (HTTPError m))
  /\ (forall e, http w u = inl e -> fst (fetch_html u w) = inl e).
Proof.
  unfold fetch_html, bind, requests_get, raise_for_status, raise, ret.
  world_simpl. destruct (http w u) as [e|r] eqn:Hh.
  - world_simpl. split; [reflexivity|]. split; [|split].
    + intros body. split; [discriminate | intros (r & H & _); discriminate H].
    + intros r H. discriminate H.
    + now intros e' [= <-].
  - destruct ((400 <=? status_code r) && (status_code r <? 500)) eqn:E1;
      [|destruct ((500 <=? status_code r) && (status_code r <? 600)) eqn:E2];
      world_simpl.
    + apply andb_true_iff in E1 as [A B].
      apply N.leb_le in A. apply N.ltb_lt in B.
      split; [reflexivity|]. split; [|split].
      * intros body. split; [discriminate|].
        intros (r' & [= <-] & [H | H] & _); lia.
      * intros r' [= <-] _. eauto.
      * intros e H. discriminate H.
    + apply andb_true_iff in E2 as [A B].
      apply N.leb_le in A. apply N.ltb_lt in B.
      split; [reflexivity|]. split; [|split].
      * intros body. split; [discriminate|].
        intros (r' & [= <-] & [H | H] & _); lia.
      * intros r' [= <-] _. eauto.
      * intros e H. discriminate H.
    + apply andb_false_iff in E1. apply andb_false_iff in E2.
      rewrite !N.leb_gt, !N.ltb_ge in *.
      split; [reflexivity|]. split; [|split].
      * intros body. split.
        -- intros [= <-]. exists r. split; [reflexivity|].
           split; [lia | reflexivity].
        -- now intros (r' & [= <-] & _ & <-).
      * intros r' [= <-] H. lia.
      * intros e H. discriminate H.
Qed.

(** A redirect that is not followed is returned as if it were the page. *)
Example fetch_html_redirect :
  fst (fetch_html URL moved_world) = inr (py "moved").
Proof. vm_compute. reflexivity. Qed.

(** ** Reading and writing state *)

(** X7.  [read_text] changes no file and prints nothing.  It returns
    [None] exactly when the file is absent; a text it returns is the
    content of the file with line ends translated, trimmed; and it raises
    only when reading the file fails, with that exception: a missing file
    raises nothing. *)
Theorem read_text_behaviour (p : str) (w : World) :
  fs (snd (read_text p w)) = fs w
  /\ stdout (snd (read_text p w)) = stdout w
  /\ (fst (read_text p w) = inr None <-> fs w !! p = None)
  /\ (forall s, fst (read_text p w) = inr (Some s) ->
                strip s = s
                /\ exists c, fs w !! p = Some c
                             /\ s = strip (universal_newlines c))
  /\ (forall e, fst (read_text p w) = inl e ->
                io_error w OpRead p = Some e).
Proof.
  unfold read_text, bind, path_exists, path_read_text, ret. world_simpl.
  destruct (fs w !! p) as [c|] eqn:Hp; world_simpl.
  - rewrite Hp. destruct (io_error w OpRead p) as [e|] eqn:He; world_simpl.
    + split; [reflexivity|]. split; [reflexivity|].
      split; [split; discriminate|].
      split; [intros s H; discriminate H | now intros e' [= <-]].
    + split; [reflexivity|]. split; [reflexivity|].
      split; [split; discriminate|].
      split; [|intros e H; discriminate H].
      intros s [= <-]. split; [apply strip_idemp | eauto].
  - split; [reflexivity|]. split; [reflexivity|].
    split; [split; reflexivity|].
    split; [intros s H; discriminate H | intros e H; discriminate H].
Qed.

Lemma write_text_ok (p c : str) w w' :
  write_text p c w = (inr tt, w') ->
  w' = set_fs (<[p := c]> (fs w)) (add_event (EvWrite p c) w)
  /\ io_error w OpWrite p = None.
Proof.
  unfold write_text, path_write_text. world_simpl.
  destruct (io_error w OpWrite p); [discriminate|].
  destruct (encode_utf8 c); [discriminate|].
  now intros [= <-].
Qed.

(** X8.  What [write_text] has written, [read_text] reads back with line
    ends translated and trimmed; a content without carriage return and
    without surrounding white space is read back as it was written. *)
Theorem write_then_read (p c : str) (w w1 : World) :
  write_text p c w = (inr tt, w1) ->
  io_error w OpRead p = None ->
  fst (read_text p w1) = inr (Some (strip (universal_newlines c)))
  /\ (Forall (fun x => (x =? CR) = false) c -> strip c = c ->
      fst (read_text p w1) = inr (Some c)).
Proof.
  intros Hw Hr. apply write_text_ok in Hw as [-> _].
  assert (E : fst (read_text p
                     (set_fs (<[p := c]> (fs w)) (add_event (EvWrite p c) w)))
              = inr (Some (strip (universal_newlines c)))).
  { unfold read_text, bind, path_exists, path_read_text, ret. world_simpl.
    rewrite lookup_insert_eq. world_simpl.
    rewrite Hr, lookup_insert_eq. reflexivity. }
  split; [exact E|].
  intros Hc Hs. rewrite E, universal_newlines_plain by exact Hc.
  now rewrite Hs.
Qed.

Lemma write_then_read_witness :
  write_text HASH_FILE sample_digest (fresh_world sample_page)
  = (inr tt, snd (write_text HASH_FILE sample_digest (fresh_world sample_page)))
  /\ io_error (fresh_world sample_page) OpRead HASH_FILE = None
  /\ fst (read_text HASH_FILE
            (snd (write_text HASH_FILE sample_digest
                    (fresh_world sample_page))))
     = inr (Some (strip (universal_newlines sample_digest)))
  /\ (Forall (fun x => (x =? CR) = false) sample_digest ->
      strip sample_digest = sample_digest ->
      fst (read_text HASH_FILE
             (snd (write_text HASH_FILE sample_digest
                     (fresh_world sample_page))))
      = inr (Some sample_digest)).
Proof.
  assert (H1 : write_text HASH_FILE sample_digest (fresh_world sample_page)
               = (inr tt, snd (write_text HASH_FILE sample_digest
                                 (fresh_world sample_page))))
    by (vm_compute; reflexivity).
  assert (H2 : io_error (fresh_world sample_page) OpRead HASH_FILE = None)
    by reflexivity.
  exact (conj H1 (conj H2 (write_then_read HASH_FILE sample_digest
                             (fresh_world sample_page) _ H1 H2))).
Defined.

(** ** Emitting outputs *)

Lemma no_surrogate_encodable (s : str) : no_surrogate s -> encodable s.
Proof. intros H. exact (encode_utf8_from_plain s 0%nat H). Qed.

Lemma encodable_no_surrogate (s : str) : encodable s -> no_surrogate s.
Proof. intros [d H]. exact (encode_utf8_from_ok s 0%nat d H). Qed.

Lemma no_surrogate_check (s : str) :
  forallb (fun c => negb (is_surrogate c)) s = true -> no_surrogate s.
Proof.
  intros H. apply Forall_forall. intros c Hc.
  apply list_elem_of_In in Hc.
  rewrite forallb_forall in H. apply H in Hc. now destruct (is_surrogate c).
Qed.

Lemma output_record_no_surrogate (n v : str) :
  no_surrogate n -> no_surrogate v -> no_surrogate (output_record n v).
Proof.
  intros Hn Hv. unfold output_record, no_surrogate.
  assert (L1 : no_surrogate (py "<<__EOF__"))
    by (apply no_surrogate_check; vm_compute; reflexivity).
  assert (L2 : no_surrogate (py "__EOF__"))
    by (apply no_surrogate_check; vm_compute; reflexivity).
  assert (L3 : no_surrogate [NL])
    by (apply no_surrogate_check; vm_compute; reflexivity).
  repeat (apply Forall_app; split); assumption.
Qed.

Lemma set_github_output_unfold (n v p : str) (w : World) :
  GITHUB_OUTPUT w = Some p -> p <> [] ->
  set_github_output n v w = append_text p (output_record n v) w.
Proof.
  intros Hg Hp. unfold set_github_output. rewrite Hg.
  destruct p; [congruence | reflexivity].
Qed.

Lemma set_github_output_ok (n v p : str) w w' :
  GITHUB_OUTPUT w = Some p -> p <> [] ->
  set_github_output n v w = (inr tt, w') ->
  w' = set_fs (<[p := default [] (fs w !! p) ++ output_record n v]> (fs w))
              (add_event (EvAppend p (output_record n v)) w)
  /\ io_error w OpAppend p = None.
Proof.
  intros Hg Hp. rewrite (set_github_output_unfold n v p w Hg Hp).
  unfold append_text. world_simpl.
  destruct (io_error w OpAppend p); [discriminate|].
  destruct (encode_utf8 (output_record n v)); [discriminate|].
  now intros [= <-].
Qed.

(** X9.  [set_github_output] does nothing at all when [GITHUB_OUTPUT] is
    unset or empty.  Otherwise it touches no file but the one named: when
    it returns, that file holds its former content (none, if it was
    absent) followed by the record of the name and the value; and it
    returns whenever the file can be opened and name and value can be
    encoded. *)
Theorem set_github_output_effect (n v : str) (w : World) :
  (GITHUB_OUTPUT w = None \/ GITHUB_OUTPUT w = Some [] ->
   set_github_output n v w = (inr tt, w))
  /\ (forall p,
        GITHUB_OUTPUT w = Some p -> p <> [] ->
        (forall q, q <> p ->
                   fs (snd (set_github_output n v w)) !! q = fs w !! q)
        /\ (fst (set_github_output n v w) = inr tt ->
            fs (snd (set_github_output n v w)) !! p
            = Some (default [] (fs w !! p) ++ output_record n v))
        /\ (io_error w OpAppend p = None ->
            no_surrogate n -> no_surrogate v ->
            fst (set_github_output n v w) = inr tt)).
Proof.
  split.
  - unfold set_github_output. now intros [-> | ->].
  - intros p Hg Hp. rewrite (set_github_output_unfold n v p w Hg Hp).
    unfold append_text. world_simpl.
    destruct (io_error w OpAppend p) as [e|]; world_simpl.
    + split; [reflexivity|]. split; [discriminate|]. discriminate.
    + destruct (encode_utf8 (output_record n v)) as [e|d] eqn:E; world_simpl.
      * split; [intros q Hq; now rewrite lookup_insert_ne by congruence|].
        split; [discriminate|]. intros _ Hn Hv.
        destruct (no_surrogate_encodable _
                    (output_record_no_surrogate n v Hn Hv)) as [d Hd].
        congruence.
      * split; [intros q Hq; now rewrite lookup_insert_ne by congruence|].
        split; [intros _; apply lookup_insert_eq | reflexivity].
Qed.

Lemma crafted_record (n v n' v' : str) :
  output_record n (crafted_value v n' v')
  = output_record n v ++ output_record n' v'.
Proof.
  unfold output_record, crafted_value. now rewrite <- !app_assoc.
Qed.

(** X10.  The value is written without escaping the delimiter: emitting
    one output whose value contains the closing delimiter on a line of
    its own, followed by the opening line of another output, leaves the
    files exactly as emitting the two outputs one after the other. *)
Theorem output_delimiter_not_escaped (n v n' v' p : str) (w : World) :
  GITHUB_OUTPUT w = Some p -> p <> [] ->
  io_error w OpAppend p = None ->
  no_surrogate n -> no_surrogate v -> no_surrogate n' -> no_surrogate v' ->
  fst (set_github_output n (crafted_value v n' v') w) = inr tt
  /\ fst ((set_github_output n v ;; set_github_output n' v') w) = inr tt
  /\ fs (snd (set_github_output n (crafted_value v n' v') w))
     = fs (snd ((set_github_output n v ;; set_github_output n' v') w)).
Proof.
  intros Hg Hp Hio Hn Hv Hn' Hv'.
  destruct (no_surrogate_encodable _ (output_record_no_surrogate n v Hn Hv))
    as [d1 E1].
  destruct (no_surrogate_encodable _ (output_record_no_surrogate n' v' Hn' Hv'))
    as [d2 E2].
  assert (E3 : encodable (output_record n (crafted_value v n' v'))).
  { rewrite crafted_record. apply no_surrogate_encodable, Forall_app.
    split; now apply output_record_no_surrogate. }
  destruct E3 as [d3 E3].
  unfold bind. rewrite !(set_github_output_unfold _ _ p w Hg Hp).
  unfold append_text. world_simpl. rewrite Hio, E1, E3. world_simpl.
  rewrite (set_github_output_unfold n' v' p) by (world_simpl; assumption).
  unfold append_text. world_simpl. rewrite Hio, E2. world_simpl.
  split; [reflexivity|]. split; [reflexivity|].
  rewrite lookup_insert_eq, insert_insert_eq. cbn [default].
  now rewrite crafted_record, app_assoc.
Qed.

Lemma output_delimiter_not_escaped_witness :
  fs (snd (set_github_output (py "content")
             (crafted_value (py "Concert") (py "changed") (py "false"))
             (fresh_world sample_page)))
  = fs (snd ((set_github_output (py "content") (py "Concert") ;;
              set_github_output (py "changed") (py "false"))
               (fresh_world sample_page))).
Proof.
  refine (proj2 (proj2 (output_delimiter_not_escaped
            (py "content") (py "Concert") (py "changed") (py "false")
            (py "/tmp/out") (fresh_world sample_page)
            eq_refl _ eq_refl _ _ _ _))).
  - intros E. vm_compute in E. discriminate E.
  - apply no_surrogate_check. vm_compute. reflexivity.
  - apply no_surrogate_check. vm_compute. reflexivity.
  - apply no_surrogate_check. vm_compute. reflexivity.
  - apply no_surrogate_check. vm_compute. reflexivity.
Defined.

(** ** The comparison *)

(** X11.  In a run that reaches the comparison, [changed] is false
    exactly when the digest file exists and its content, with line ends
    translated and trimmed, is the new digest: white space around the
    stored digest does not matter, anything else counts as a change. *)
Theorem changed_flag_meaning
    (get_text : str -> str) (w w1 : World) (block h : str) (ch : bool) :
  before_writes get_text w = (inr (block, h, ch), w1) ->
  (ch = false <->
   exists c, fs w !! HASH_FILE = Some c
             /\ strip (universal_newlines c) = h).
Proof.
  intros Hb.
  destruct (before_writes_inv _ _ _ _ _ _ Hb) as (_ & _ & _ & _ & -> & _).
  unfold differs. destruct (fs w !! HASH_FILE) as [c|].
  - destruct (decide (Some (strip (universal_newlines c)) = Some h))
      as [E | E].
    + rewrite bool_decide_eq_true_2 by exact E. split; [|reflexivity].
      intros _. exists c. split; [reflexivity | congruence].
    + rewrite bool_decide_eq_false_2 by exact E. split; [discriminate|].
      intros (c' & [= <-] & H). congruence.
  - rewrite bool_decide_eq_false_2 by discriminate.
    split; [discriminate | intros (c & H & _); discriminate H].
Qed.

Lemma changed_flag_meaning_witness :
  before_writes get_text_plain (loaded newline_world)
  = (inr (sample_block, sample_digest, false),
     snd (before_writes get_text_plain (loaded newline_world)))
  /\ (false = false <->
      exists c, fs (loaded newline_world) !! HASH_FILE = Some c
                /\ strip (universal_newlines c) = sample_digest).
Proof.
  assert (H : before_writes get_text_plain (loaded newline_world)
              = (inr (sample_block, sample_digest, false),
                 snd (before_writes get_text_plain (loaded newline_world))))
    by (vm_compute; reflexivity).
  exact (conj H (changed_flag_meaning get_text_plain (loaded newline_world)
                   _ sample_block sample_digest false H)).
Defined.

(** ** What a run emits and what it leaves alone *)

Lemma script_ok_inv (get_text : str -> str) w w' :
  script get_text w = (0%Z, w') ->
  mkdir_error w = None
  /\ exists block h ch w1,
       before_writes get_text (loaded w) = (inr (block, h, ch), w1)
       /\ writes_and_report block h ch w1 = (inr 0%Z, w').
Proof.
  unfold script. fold (loaded w).
  destruct (mkdir_error w) as [e0|]; [discriminate|].
  destruct (main get_text (loaded w)) as [[e|c] w2] eqn:Hm; [discriminate|].
  intros [= -> ->]. split; [reflexivity|].
  destruct (before_writes get_text (loaded w)) as [[e|[[b h] ch]] w1] eqn:Hb.
  - rewrite (main_of_early_failure _ _ _ _ Hb) in Hm. discriminate Hm.
  - rewrite (main_of_compare _ _ _ _ _ _ Hb) in Hm. eauto 10.
Qed.

Lemma report_ok (block p : str) (ch : bool) w c w' :
  GITHUB_OUTPUT w = Some p -> p <> [] ->
  report block ch w = (inr c, w') ->
  trace w' = trace w ++ map (EvAppend p) (run_outputs block ch)
  /\ fs w' !! p
     = Some (default [] (fs w !! p) ++ concat (run_outputs block ch))
  /\ forall q, q <> p -> fs w' !! q = fs w !! q.
Proof.
  intros Hg Hp. unfold report, bind at 1.
  destruct (set_github_output (py "changed") _ w) as [[e|[]] w2] eqn:E1;
    [discriminate|].
  apply (set_github_output_ok _ _ p) in E1 as [-> _]; [|assumption..].
  unfold bind at 1.
  destruct (set_github_output (py "url") URL _) as [[e|[]] w3] eqn:E2;
    [discriminate|].
  apply (set_github_output_ok _ _ p) in E2 as [-> _]; [|assumption..].
  unfold bind at 1.
  destruct (set_github_output (py "content") block _) as [[e|[]] w4] eqn:E3;
    [discriminate|].
  apply (set_github_output_ok _ _ p) in E3 as [-> _]; [|assumption..].
  destruct ch; unfold bind, print, ret; world_simpl;
    intros [= <- <-]; world_simpl;
    rewrite !lookup_insert_eq; cbn [default];
    unfold run_outputs, id; cbn [map concat];
    (split; [rewrite <- !app_assoc; reflexivity|]);
    (split; [now rewrite app_nil_r, <- !app_assoc|]);
    intros q Hq; now rewrite !lookup_insert_ne by congruence.
Qed.

Lemma writes_and_report_ok_inv (block h : str) (ch : bool) w c w' :
  writes_and_report block h ch w = (inr c, w') ->
  report block ch
    (set_fs (<[TEXT_FILE := block]> (<[HASH_FILE := h]> (fs w)))
       (add_event (EvWrite TEXT_FILE block)
          (add_event (EvWrite HASH_FILE h) w)))
  = (inr c, w')
  /\ io_error w OpWrite HASH_FILE = None
  /\ io_error w OpWrite TEXT_FILE = None.
Proof.
  unfold writes_and_report, bind at 1.
  destruct (write_text HASH_FILE h w) as [[e|[]] w2] eqn:E1; [discriminate|].
  apply write_text_ok in E1 as [-> Hio1].
  unfold bind at 1.
  destruct (write_text TEXT_FILE block _) as [[e|[]] w3] eqn:E2;
    [discriminate|].
  apply write_text_ok in E2 as [-> Hio2]. world_simpl.
  intros H. now split.
Qed.

(** X12.  A run that completes with [GITHUB_OUTPUT] set appends to that
    file exactly three records, in this order: [changed] with "true" or
    "false", [url] with the fixed URL, and [content] with the block; the
    former content of the file is kept in front of them. *)
Theorem outputs_emitted (get_text : str -> str) (w w' : World) (p : str) :
  script get_text w = (0%Z, w') ->
  GITHUB_OUTPUT w = Some p -> p <> [] ->
  exists block h ch evs,
    fst (before_writes get_text (loaded w)) = inr (block, h, ch)
    /\ trace w' = trace w ++ evs
    /\ List.filter is_append evs = map (EvAppend p) (run_outputs block ch)
    /\ (sink_apart w ->
        fs w' !! p
        = Some (default [] (fs w !! p) ++ concat (run_outputs block ch))).
Proof.
  intros Hs Hg Hp.
  destruct (script_ok_inv _ _ _ Hs) as (_ & b & h & ch & w1 & Hb & Hw).
  destruct (before_writes_frame _ _ _ _ Hb) as (Hfs & _ & _ & _ & _ & Hg1).
  destruct (before_writes_inv _ _ _ _ _ _ Hb) as (_ & _ & _ & _ & _ & Ht1).
  apply writes_and_report_ok_inv in Hw as (Hr & _ & _).
  apply (report_ok b p) in Hr as (Ht & Hf & _);
    [|world_simpl; rewrite Hg1; exact Hg | exact Hp].
  world_simpl.
  exists b, h, ch,
    (EvMkdir STATE_DIR :: EvGet URL :: EvExists HASH_FILE
       :: match fs w !! HASH_FILE with
          | Some _ => [EvRead HASH_FILE]
          | None => []
          end
       ++ [EvWrite HASH_FILE h; EvWrite TEXT_FILE b]
       ++ map (EvAppend p) (run_outputs b ch)).
  split; [now rewrite Hb|]. split; [|split].
  - revert Ht. world_simpl. intros ->. rewrite Ht1. unfold loaded.
    world_simpl. rewrite <- !app_assoc. reflexivity.
  - destruct (fs w !! HASH_FILE); reflexivity.
  - intros [S1 S2]. rewrite Hf.
    rewrite !lookup_insert_ne by congruence. now rewrite Hfs.
Qed.

Lemma outputs_emitted_witness :
  script get_text_plain (fresh_world sample_page)
  = (0%Z, snd (script get_text_plain (fresh_world sample_page)))
  /\ exists block h ch evs,
      fst (before_writes get_text_plain (loaded (fresh_world sample_page)))
      = inr (block, h, ch)
      /\ trace (snd (script get_text_plain (fresh_world sample_page)))
         = trace (fresh_world sample_page) ++ evs
      /\ List.filter is_append evs
         = map (EvAppend (py "/tmp/out")) (run_outputs block ch)
      /\ (sink_apart (fresh_world sample_page) ->
          fs (snd (script get_text_plain (fresh_world sample_page)))
            !! py "/tmp/out"
          = Some (default [] (fs (fresh_world sample_page) !! py "/tmp/out")
                    ++ concat (run_outputs block ch))).
Proof.
  assert (H : script get_text_plain (fresh_world sample_page)
              = (0%Z, snd (script get_text_plain (fresh_world sample_page))))
    by (vm_compute; reflexivity).
  split; [exact H|].
  apply (outputs_emitted get_text_plain (fresh_world sample_page) _
           (py "/tmp/out") H eq_refl).
  intros E. vm_compute in E. discriminate E.
Defined.

Lemma write_text_elsewhere (q p c : str) (x : option str) (g : option str) :
  p <> q ->
  stable (fun w => fs w !! q = x /\ GITHUB_OUTPUT w = g) (write_text p c).
Proof.
  intros Hp. unfold stable, hoare.
  op_cases; intros [Hq Hg]; (split; [|exact Hg]);
    rewrite ?lookup_insert_ne by exact Hp; exact Hq.
Qed.

Lemma set_github_output_elsewhere (q n v : str) (x : option str)
    (g : option str) :
  g <> Some q ->
  stable (fun w => fs w !! q = x /\ GITHUB_OUTPUT w = g)
         (set_github_output n v).
Proof.
  intros Hgq. unfold stable, hoare.
  op_cases; intros [Hq Hg]; (split; [|congruence]);
    rewrite ?lookup_insert_ne by congruence; exact Hq.
Qed.

Lemma print_elsewhere (q line : str) (x : option str) (g : option str) :
  stable (fun w => fs w !! q = x /\ GITHUB_OUTPUT w = g) (print line).
Proof. unfold stable, hoare. op_cases; auto. Qed.

(** X13.  Whatever happens in a run, the only files it can change are the
    digest file, the text file and the file named by [GITHUB_OUTPUT]:
    every other file is after the run as it was before. *)
Theorem other_files_untouched (get_text : str -> str) (w : World) (q : str) :
  q <> HASH_FILE -> q <> TEXT_FILE -> GITHUB_OUTPUT w <> Some q ->
  fs (snd (script get_text w)) !! q = fs w !! q.
Proof.
  intros Hh Ht Hg. rewrite script_fs.
  destruct (mkdir_error w); [reflexivity|].
  destruct (before_writes get_text (loaded w)) as [[e|[[b h] ch]] w1] eqn:Hb.
  - rewrite (main_of_early_failure _ _ _ _ Hb). cbn [snd].
    now destruct (before_writes_frame _ _ _ _ Hb) as (-> & _).
  - rewrite (main_of_compare _ _ _ _ _ _ Hb).
    destruct (before_writes_frame _ _ _ _ Hb) as (Hfs & _ & _ & _ & _ & Hg1).
    assert (S : stable (fun w0 => fs w0 !! q = fs w !! q
                                  /\ GITHUB_OUTPUT w0 = GITHUB_OUTPUT w)
                       (writes_and_report b h ch)).
    { unfold writes_and_report, report. stable_steps;
        auto using write_text_elsewhere, set_github_output_elsewhere,
                   print_elsewhere. }
    destruct (writes_and_report b h ch w1) as [r w2] eqn:E.
    apply (stable_result _ _ _ _ _ S) in E; [apply E|].
    rewrite Hfs, Hg1. now split.
Qed.

Lemma other_files_untouched_witness :
  fs (snd (script get_text_plain bystander_world)) !! py "notes.txt"
  = fs bystander_world !! py "notes.txt".
Proof.
  apply (other_files_untouched get_text_plain bystander_world
           (py "notes.txt"));
    intros E; vm_compute in E; discriminate E.
Defined.

Lemma before_writes_gets (get_text : str -> str) w r w1 :
  before_writes get_text w = (r, w1) ->
  exists evs, trace w1 = trace w ++ EvGet URL :: evs
              /\ List.filter is_get evs = [].
Proof.
  run; intros ?; simplify_eq; world_simpl; rewrite <- ?app_assoc;
    try (exists []; split; [reflexivity | reflexivity]);
    eexists; (split; [reflexivity | reflexivity]).
Qed.

Lemma writes_are_not_gets (evs : list event) :
  Forall (fun ev => is_write ev = true) evs -> List.filter is_get evs = [].
Proof.
  induction 1 as [|ev evs Hev _ IH]; [reflexivity|].
  cbn [List.filter]. rewrite IH. now destruct ev.
Qed.

(** X14.  A run makes exactly one request, to the fixed URL, and none if
    the state directory cannot be created: there is no retry, whatever
    the outcome. *)
Theorem one_request_per_run (get_text : str -> str) (w : World) :
  exists evs,
    trace (snd (script get_text w)) = trace w ++ evs
    /\ List.filter is_get evs
       = match mkdir_error w with
         | Some _ => []
         | None => [EvGet URL]
         end.
Proof.
  unfold script. fold (loaded w).
  destruct (mkdir_error w) as [e0|].
  { exists [EvMkdir STATE_DIR]. now split. }
  destruct (before_writes get_text (loaded w)) as [[e|[[b h] ch]] w1] eqn:Hb.
  - rewrite (main_of_early_failure _ _ _ _ Hb).
    destruct (before_writes_gets _ _ _ _ Hb) as (evs & Ht & Hg).
    exists (EvMkdir STATE_DIR :: EvGet URL :: evs). cbn [snd]. split.
    + world_simpl. rewrite Ht. unfold loaded. world_simpl.
      now rewrite <- app_assoc.
    + cbn [List.filter is_get]. now rewrite Hg.
  - rewrite (main_of_compare _ _ _ _ _ _ Hb).
    destruct (before_writes_gets _ _ _ _ Hb) as (evs & Ht & Hg).
    destruct (writes_and_report b h ch w1) as [r w2] eqn:Hw.
    assert (H2 : trace_grows (trace w1) is_write w2).
    { apply (stable_result _ _ _ _ _
               (writes_and_report_trace b h ch (trace w1))) in Hw;
        [exact Hw|].
      exists []. rewrite app_nil_r. now split. }
    destruct H2 as (evs2 & Ht2 & Hev2).
    exists (EvMkdir STATE_DIR :: EvGet URL :: evs ++ evs2). split.
    + assert (Htr : trace w2
                    = trace w ++ EvMkdir STATE_DIR :: EvGet URL :: evs ++ evs2).
      { rewrite Ht2, Ht. unfold loaded. world_simpl.
        now rewrite <- !app_assoc. }
      destruct r; exact Htr.
    + cbn [List.filter is_get]. rewrite List.filter_app, Hg.
      now rewrite (writes_are_not_gets _ Hev2).
Qed.

(** ** Running again *)

Lemma same_env_refl (w : World) : same_env w w.
Proof. unfold same_env. tauto. Qed.

Lemma write_text_env (w0 : World) (p c : str) :
  stable (same_env w0) (write_text p c).
Proof. unfold stable, hoare, same_env. op_cases; auto. Qed.

Lemma set_github_output_env (w0 : World) (n v : str) :
  stable (same_env w0) (set_github_output n v).
Proof.
  unfold stable, hoare, same_env.
  op_cases; intros (A & B & C & D); repeat split; congruence.
Qed.

Lemma print_env (w0 : World) (line : str) : stable (same_env w0) (print line).
Proof. unfold stable, hoare, same_env. op_cases; auto. Qed.

Lemma writes_and_report_env (w0 : World) (block h : str) (ch : bool) :
  stable (same_env w0) (writes_and_report block h ch).
Proof.
  unfold writes_and_report, report. stable_steps;
    auto using write_text_env, set_github_output_env, print_env.
Qed.

Lemma script_same_env (get_text : str -> str) (w : World) :
  same_env w (snd (script get_text w)).
Proof.
  unfold script. fold (loaded w).
  destruct (mkdir_error w);
    [unfold same_env, loaded; world_simpl; tauto|].
  destruct (before_writes get_text (loaded w)) as [[e|[[b h] ch]] w1] eqn:Hb.
  - rewrite (main_of_early_failure _ _ _ _ Hb). cbn [snd].
    destruct (before_writes_frame _ _ _ _ Hb) as (_ & _ & A & B & C & D).
    unfold same_env. world_simpl. now rewrite A, B, C, D.
  - rewrite (main_of_compare _ _ _ _ _ _ Hb).
    destruct (before_writes_frame _ _ _ _ Hb) as (_ & _ & A & B & C & D).
    assert (H1 : same_env w w1)
      by (unfold same_env; now rewrite A, B, C, D).
    destruct (writes_and_report b h ch w1) as [r w2] eqn:E.
    pose proof (stable_result _ _ _ _ _ (writes_and_report_env w b h ch)
                  H1 E) as H2.
    destruct r; unfold same_env in *; world_simpl; exact H2.
Qed.

Lemma fetch_html_env (u : str) (w w' : World) :
  http w' = http w -> fst (fetch_html u w') = fst (fetch_html u w).
Proof.
  intros H. unfold fetch_html, bind, requests_get, raise_for_status,
    raise, ret. world_simpl. rewrite H.
  destruct (http w u) as [e|r]; [reflexivity|].
  repeat case_scrutinee; reflexivity.
Qed.

Lemma before_writes_run (get_text : str -> str) w html block h c :
  fst (fetch_html URL w) = inr html ->
  extract_current_social_events get_text html = inr block ->
  sha256 block = inr h ->
  fs w !! HASH_FILE = Some c ->
  io_error w OpRead HASH_FILE = None ->
  fst (before_writes get_text w)
  = inr (block, h, differs (Some (strip (universal_newlines c))) h).
Proof.
  intros Hf He Hs Hc Hio. revert Hf.
  unfold before_writes, fetch_html, requests_get, raise_for_status,
    read_text, path_exists, path_read_text, lift, raise, ret, bind.
  world_simpl. destruct (http w URL) as [e|r]; [discriminate|].
  repeat (case_scrutinee; world_simpl); try discriminate;
    intros [= <-]; world_simpl; congruence.
Qed.

Lemma write_text_succeeds (p c : str) (w : World) :
  io_error w OpWrite p = None -> encodable c ->
  write_text p c w
  = (inr tt, set_fs (<[p := c]> (fs w)) (add_event (EvWrite p c) w)).
Proof.
  intros Hio [d Hd]. unfold write_text, path_write_text. world_simpl.
  now rewrite Hio, Hd.
Qed.

Lemma set_github_output_succeeds (n v : str) (w : World) :
  (forall p, GITHUB_OUTPUT w = Some p -> p <> [] ->
             io_error w OpAppend p = None) ->
  no_surrogate n -> no_surrogate v ->
  exists w', set_github_output n v w = (inr tt, w')
             /\ same_env w w' /\ stdout w' = stdout w.
Proof.
  intros Hio Hn Hv.
  destruct (no_surrogate_encodable _ (output_record_no_surrogate n v Hn Hv))
    as [d Hd].
  destruct (GITHUB_OUTPUT w) as [[|c0 p]|] eqn:Hg.
  - exists w. unfold set_github_output. rewrite Hg.
    split; [reflexivity|]. split; [apply same_env_refl | reflexivity].
  - rewrite (set_github_output_unfold n v (c0 :: p) w Hg) by discriminate.
    unfold append_text. world_simpl.
    rewrite (Hio (c0 :: p) eq_refl) by discriminate. rewrite Hd.
    eexists. split; [reflexivity|]. unfold same_env. world_simpl. tauto.
  - exists w. unfold set_github_output. rewrite Hg.
    split; [reflexivity|]. split; [apply same_env_refl | reflexivity].
Qed.

Lemma append_allowed_env (w w' : World) :
  same_env w w' ->
  (forall p, GITHUB_OUTPUT w = Some p -> p <> [] ->
             io_error w OpAppend p = None) ->
  forall p, GITHUB_OUTPUT w' = Some p -> p <> [] ->
            io_error w' OpAppend p = None.
Proof.
  intros (_ & _ & C & D) H p Hg Hp. rewrite C. apply H; congruence.
Qed.

Lemma report_succeeds (block : str) (ch : bool) (w : World) :
  (forall p, GITHUB_OUTPUT w = Some p -> p <> [] ->
             io_error w OpAppend p = None) ->
  no_surrogate block ->
  exists w', report block ch w = (inr 0%Z, w')
             /\ stdout w'
                = stdout w
                    ++ [if ch then py "CHANGED: Current social events updated."
                        else py "No change."].
Proof.
  intros Hio Hb.
  assert (L : forall t, forallb (fun c => negb (is_surrogate c)) (py t) = true
                        -> no_surrogate (py t))
    by (intros t; apply no_surrogate_check).
  assert (N1 : no_surrogate (py "changed")) by (apply L; vm_compute; reflexivity).
  assert (N2 : no_surrogate (if ch then py "true" else py "false"))
    by (destruct ch; apply L; vm_compute; reflexivity).
  assert (N3 : no_surrogate (py "url")) by (apply L; vm_compute; reflexivity).
  assert (N4 : no_surrogate URL)
    by (apply no_surrogate_check; vm_compute; reflexivity).
  assert (N5 : no_surrogate (py "content")) by (apply L; vm_compute; reflexivity).
  destruct (set_github_output_succeeds _ _ w Hio N1 N2) as (w2 & E2 & V2 & O2).
  pose proof (append_allowed_env _ _ V2 Hio) as Hio2.
  destruct (set_github_output_succeeds _ _ w2 Hio2 N3 N4) as (w3 & E3 & V3 & O3).
  pose proof (append_allowed_env _ _ V3 Hio2) as Hio3.
  destruct (set_github_output_succeeds _ _ w3 Hio3 N5 Hb) as (w4 & E4 & V4 & O4).
  unfold report, bind at 1. rewrite E2. unfold bind at 1. rewrite E3.
  unfold bind at 1. rewrite E4.
  destruct ch; unfold bind, print, ret; world_simpl;
    (eexists; split; [reflexivity|]); world_simpl;
    now rewrite O4, O3, O2.
Qed.

Lemma writes_and_report_succeeds (block h : str) (ch : bool) (w : World) :
  io_error w OpWrite HASH_FILE = None ->
  io_error w OpWrite TEXT_FILE = None ->
  (forall p, GITHUB_OUTPUT w = Some p -> p <> [] ->
             io_error w OpAppend p = None) ->
  encodable h -> encodable block ->
  exists w', writes_and_report block h ch w = (inr 0%Z, w')
             /\ stdout w'
                = stdout w
                    ++ [if ch then py "CHANGED: Current social events updated."
                        else py "No change."].
Proof.
  intros H1 H2 H3 Eh Eb.
  unfold writes_and_report, bind at 1.
  rewrite (write_text_succeeds HASH_FILE h w H1 Eh).
  unfold bind at 1.
  rewrite (write_text_succeeds TEXT_FILE block) by (world_simpl; assumption).
  destruct (report_succeeds block ch
              (set_fs (<[TEXT_FILE := block]>
                         (fs (set_fs (<[HASH_FILE := h]> (fs w))
                                (add_event (EvWrite HASH_FILE h) w))))
                 (add_event (EvWrite TEXT_FILE block)
                    (set_fs (<[HASH_FILE := h]> (fs w))
                       (add_event (EvWrite HASH_FILE h) w)))))
    as (w' & E & O).
  - world_simpl. exact H3.
  - now apply encodable_no_surrogate.
  - exists w'. split; [exact E|]. rewrite O. reflexivity.
Qed.

Lemma report_ok_io (block : str) (ch : bool) w c w' :
  report block ch w = (inr c, w') ->
  forall p, GITHUB_OUTPUT w = Some p -> p <> [] ->
            io_error w OpAppend p = None.
Proof.
  intros H p Hg Hp. revert H. unfold report, bind at 1.
  destruct (set_github_output (py "changed") _ w) as [[e|[]] w2] eqn:E1;
    [discriminate|].
  intros _. now apply (set_github_output_ok _ _ p) in E1 as [_ ?].
Qed.

(** What the second of two runs finds: the state the first one left, and
    the same page, block and digest. *)
Lemma second_run_setting (get_text : str -> str) (w w1 : World) :
  script get_text w = (0%Z, w1) -> sink_apart w ->
  exists html block h,
    fst (fetch_html URL (loaded w1)) = inr html
    /\ extract_current_social_events get_text html = inr block
    /\ sha256 block = inr h
    /\ state_is h block w1
    /\ same_env w w1
    /\ io_error w OpWrite HASH_FILE = None
    /\ io_error w OpWrite TEXT_FILE = None
    /\ (forall p, GITHUB_OUTPUT w = Some p -> p <> [] ->
                  io_error w OpAppend p = None).
Proof.
  intros Hs Hsink.
  pose proof (script_same_env get_text w) as Henv. rewrite Hs in Henv.
  cbn [snd] in Henv.
  destruct (script_ok_inv _ _ _ Hs) as (_ & b & h & ch & w0 & Hb & Hw).
  destruct (before_writes_inv _ _ _ _ _ _ Hb) as (html & Hf & He & Hsha & _).
  destruct (before_writes_frame _ _ _ _ Hb) as (_ & _ & A & B & C & D).
  assert (Hsink0 : sink_apart w0)
    by (unfold sink_apart in *; now rewrite D).
  destruct (writes_and_report_done _ _ _ _ _ _ Hw) as (_ & Hst).
  destruct (writes_and_report_ok_inv _ _ _ _ _ _ Hw) as (Hr & W1 & W2).
  unfold loaded in C, D. cbn [io_error GITHUB_OUTPUT add_event] in C, D.
  exists html, b, h. split; [|split; [exact He|split; [exact Hsha|]]].
  - rewrite <- Hf. apply fetch_html_env. unfold loaded. world_simpl.
    apply Henv.
  - split; [exact (Hst Hsink0)|]. split; [exact Henv|].
    split; [now rewrite <- C|]. split; [now rewrite <- C|].
    intros p Hg Hp. rewrite <- C.
    apply (report_ok_io _ _ _ _ _ Hr); [|exact Hp].
    world_simpl. now rewrite D.
Qed.

(** X15.  A run that follows a completed run (same page, the output file
    being a file of its own) finds no change whenever it reaches the
    comparison, leaves both state files as they are however it ends, and,
    if the digest file can be read, completes with exit code 0 after
    printing "No change.". *)
Theorem rerun_reports_no_change (get_text : str -> str) (w w1 : World) :
  script get_text w = (0%Z, w1) -> sink_apart w ->
  (forall block h ch w2,
     before_writes get_text (loaded w1) = (inr (block, h, ch), w2) ->
     ch = false)
  /\ fs (snd (script get_text w1)) !! HASH_FILE = fs w1 !! HASH_FILE
  /\ fs (snd (script get_text w1)) !! TEXT_FILE = fs w1 !! TEXT_FILE
  /\ (io_error w OpRead HASH_FILE = None ->
      fst (script get_text w1) = 0%Z
      /\ stdout (snd (script get_text w1)) = stdout w1 ++ [py "No change."]).
Proof.
  intros Hs Hsink.
  destruct (second_run_setting _ _ _ Hs Hsink)
    as (html & b & h & Hf & He & Hsha & Hst & Henv & W1 & W2 & W3).
  destruct (digest_plain _ _ Hsha) as (Eb & Eh & Hplain).
  pose proof Hst as (Sh & St & Ssink).
  pose proof Henv as (A & B & C & D).
  assert (Hm : mkdir_error w1 = None).
  { rewrite B. unfold script in Hs. now destruct (mkdir_error w). }
  assert (Same : forall b2 h2 ch2 w2,
             before_writes get_text (loaded w1) = (inr (b2, h2, ch2), w2) ->
             b2 = b /\ h2 = h /\ ch2 = false).
  { intros b2 h2 ch2 w2 Hb2.
    destruct (before_writes_inv _ _ _ _ _ _ Hb2)
      as (html2 & Hf2 & He2 & Hsha2 & Hch2 & _).
    rewrite Hf in Hf2. injection Hf2 as <-.
    rewrite He in He2. injection He2 as <-.
    rewrite Hsha in Hsha2. injection Hsha2 as <-.
    split; [reflexivity|]. split; [reflexivity|].
    rewrite Hch2. unfold loaded. world_simpl. rewrite Sh, Hplain.
    unfold differs. now rewrite bool_decide_eq_true_2. }
  split; [intros b2 h2 ch2 w2 Hb2; now apply (Same b2 h2 ch2 w2)|].
  assert (Keep : fs (snd (script get_text w1)) !! HASH_FILE = Some h
                 /\ fs (snd (script get_text w1)) !! TEXT_FILE = Some b).
  { rewrite script_fs, Hm.
    destruct (before_writes get_text (loaded w1))
      as [[e|[[b2 h2] ch2]] w2] eqn:Hb2.
    - rewrite (main_of_early_failure _ _ _ _ Hb2). cbn [snd].
      destruct (before_writes_frame _ _ _ _ Hb2) as (-> & _).
      unfold loaded. world_simpl. now split.
    - destruct (Same _ _ _ _ eq_refl) as (-> & -> & ->).
      rewrite (main_of_compare _ _ _ _ _ _ Hb2).
      destruct (before_writes_frame _ _ _ _ Hb2)
        as (Hfs & _ & _ & _ & _ & Hg).
      assert (Hst2 : state_is h b w2).
      { unfold state_is, sink_apart in *. rewrite Hfs, Hg. unfold loaded.
        world_simpl. tauto. }
      destruct (writes_and_report b h false w2) as [r w3] eqn:E.
      pose proof (stable_result _ _ _ _ _
                    (writes_and_report_state b h false Eh Eb) Hst2 E) as H.
      cbn [snd]. split; apply H. }
  destruct Keep as [K1 K2].
  split; [now rewrite K1, Sh|]. split; [now rewrite K2, St|].
  intros Hread.
  assert (Hb2 : fst (before_writes get_text (loaded w1))
                = inr (b, h, differs (Some (strip (universal_newlines h))) h)).
  { apply (before_writes_run get_text (loaded w1) html b h h Hf He Hsha).
    - unfold loaded. world_simpl. exact Sh.
    - unfold loaded. world_simpl. now rewrite C. }
  destruct (before_writes get_text (loaded w1)) as [r2 w2] eqn:Hbw.
  cbn [fst] in Hb2. subst r2.
  destruct (Same _ _ _ _ eq_refl) as (_ & _ & Hch). rewrite Hch in Hbw.
  destruct (before_writes_frame _ _ _ _ Hbw) as (_ & Hout & _ & _ & C2 & D2).
  destruct (writes_and_report_succeeds b h false w2) as (w3 & E3 & O3).
  - rewrite C2. unfold loaded. world_simpl. now rewrite C.
  - rewrite C2. unfold loaded. world_simpl. now rewrite C.
  - intros p Hg Hp. rewrite C2. unfold loaded. world_simpl. rewrite C.
    apply W3; [|exact Hp]. rewrite <- D, <- Hg, D2. reflexivity.
  - exact Eh.
  - exact Eb.
  - unfold script. fold (loaded w1). rewrite Hm.
    rewrite (main_of_compare _ _ _ _ _ _ Hbw), E3. cbn [fst snd].
    split; [reflexivity|]. rewrite O3, Hout. reflexivity.
Qed.

Lemma rerun_reports_no_change_witness :
  script get_text_plain (fresh_world sample_page)
  = (0%Z, snd (script get_text_plain (fresh_world sample_page)))
  /\ sink_apart (fresh_world sample_page)
  /\ fst (script get_text_plain
            (snd (script get_text_plain (fresh_world sample_page)))) = 0%Z.
Proof.
  assert (H1 : script get_text_plain (fresh_world sample_page)
               = (0%Z, snd (script get_text_plain (fresh_world sample_page))))
    by (vm_compute; reflexivity).
  assert (H2 : sink_apart (fresh_world sample_page)).
  { split; intros E; vm_compute in E; discriminate E. }
  split; [exact H1|]. split; [exact H2|].
  destruct (rerun_reports_no_change get_text_plain _ _ H1 H2)
    as (_ & _ & _ & H).
  exact (proj1 (H eq_refl)).
Defined.
